(** * Resume_AI_Detection: the heuristic scoring engine

    A shallow embedding of [analyzeResume] (src/services/geminiService.ts)
    and the properties of its result record.

    Modelling conventions.
    - A text is the sequence of its code units.  The development covers the
      code units 0..255 ([ascii]); on these, [toLowerCase], [trim] and the
      regular-expression classes [\w], [\s] are the tables written below.
    - The three regular expressions of the source are run by a small
      backtracking matcher ([exec_at]) with the greedy priority of the
      JavaScript engine; [String_match] and [String_split] follow the
      global-match and split loops of the language.
    - A JavaScript number is idealised as a real number in [analyze].  An
      operation whose JavaScript result would not be a finite number
      (division by zero, square root of a negative number) returns no value
      ([None]).
    - [analyze64] is the same computation in double precision: every
      arithmetic operation and every decimal literal of the source is
      followed by a rounding [rnd], and [Math.pow(x, 2)] is a function
      [pow2].  The properties stated on [analyze64] hold for every [rnd]
      that is monotone and leaves the halves of the integers up to 2^53
      unchanged, as rounding to the nearest double does, and for every
      [pow2] without negative values; with the identity for [rnd] and the
      exact square for [pow2], [analyze64] is [analyze].
    - [Math.random()] reads the next element of a sequence of draws; the
      source of randomness is threaded through the computation as state.
    - The 1500 ms delay before the computation is not modelled. *)

From Stdlib Require Import Ascii String DecimalString.
From Stdlib Require Import List Bool Arith Lia ZArith.
From Stdlib Require Import Reals Lra.
Import ListNotations.

(* ================================================================== *)
(** ** Strings and character classes *)

Definition jsstring := list ascii.

Definition str (s : string) : jsstring := list_ascii_of_string s.

Definition code (c : ascii) : nat := nat_of_ascii c.

Fixpoint jsstring_eqb (a b : jsstring) : bool :=
  match a, b with
  | [], [] => true
  | x :: a', y :: b' => Ascii.eqb x y && jsstring_eqb a' b'
  | _, _ => false
  end.

Definition jsstring_dec : forall a b : jsstring, {a = b} + {a <> b} :=
  list_eq_dec ascii_dec.

(** [[.!?]] *)
Definition is_terminator (c : ascii) : bool :=
  (code c =? 46) || (code c =? 33) || (code c =? 63).

(** [[^.!?]] *)
Definition not_terminator (c : ascii) : bool := negb (is_terminator c).

(** [\w]: letters, digits and the underscore. *)
Definition is_word (c : ascii) : bool :=
  ((48 <=? code c) && (code c <=? 57))
  || ((65 <=? code c) && (code c <=? 90))
  || (code c =? 95)
  || ((97 <=? code c) && (code c <=? 122)).

(** [\s], also the characters removed by [trim]: TAB, LF, VT, FF, CR, SP
    and NBSP. *)
Definition is_space (c : ascii) : bool :=
  ((9 <=? code c) && (code c <=? 13)) || (code c =? 32) || (code c =? 160).

(** [toLowerCase] on one code unit: A-Z, and U+00C0..U+00DE except the
    multiplication sign U+00D7. *)
Definition lower_unit (c : ascii) : ascii :=
  let n := code c in
  if ((65 <=? n) && (n <=? 90))
     || ((192 <=? n) && (n <=? 222) && negb (n =? 215))
  then ascii_of_nat (n + 32) else c.

Definition toLowerCase (s : jsstring) : jsstring := map lower_unit s.

Fixpoint trimStart (s : jsstring) : jsstring :=
  match s with
  | c :: s' => if is_space c then trimStart s' else s
  | [] => []
  end.

Definition trimEnd (s : jsstring) : jsstring := rev (trimStart (rev s)).

Definition trim (s : jsstring) : jsstring := trimEnd (trimStart s).

(* ================================================================== *)
(** ** Regular expressions *)

(** The patterns of the source are sequences of two kinds of node: a
    greedy [C+] over a character class, and the assertion [\b]. *)
Inductive node : Type :=
| Plus (cls : ascii -> bool)
| WordBoundary.

Definition regex := list node.

(** [/[^.!?]+[.!?]+/] *)
Definition re_sentence : regex := [Plus not_terminator; Plus is_terminator].
(** [/\b\w+\b/] *)
Definition re_word : regex := [WordBoundary; Plus is_word; WordBoundary].
(** [/\s+/] *)
Definition re_space : regex := [Plus is_space].

Definition is_word_at (c : option ascii) : bool :=
  match c with Some c => is_word c | None => false end.

(** [exec_at re prev s]: the pattern is tried at one position, [prev] being
    the character before it and [s] the text from it; the length of the
    match, if there is one.  [C+] first takes one more character and, when
    the rest fails after that, gives back to the rest of the pattern. *)
Fixpoint exec_at (re : regex) (prev : option ascii) (s : jsstring)
  : option nat :=
  match re with
  | [] => Some 0
  | WordBoundary :: rest =>
      if xorb (is_word_at prev) (is_word_at (hd_error s))
      then exec_at rest prev s else None
  | Plus cls :: rest =>
      (fix loop (s : jsstring) : option nat :=
         match s with
         | [] => None
         | c :: s' =>
             if cls c then
               match loop s' with
               | Some n => Some (S n)
               | None => option_map S (exec_at rest (Some c) s')
               end
             else None
         end) s
  end.

(** The loop of a global match: the pattern is tried at each position from
    left to right; after a match of [n > 0] characters the search resumes
    behind it ([skip] counts the characters of the current match still to
    pass), after an empty match one character further. *)
Fixpoint match_loop (re : regex) (prev : option ascii) (s : jsstring)
  (skip : nat) : list jsstring :=
  match s with
  | [] =>
      match skip, exec_at re prev [] with
      | 0, Some _ => [[]]
      | _, _ => []
      end
  | c :: s' =>
      match skip with
      | S k => match_loop re (Some c) s' k
      | 0 =>
          match exec_at re prev s with
          | Some n => firstn n s :: match_loop re (Some c) s' (pred n)
          | None => match_loop re (Some c) s' 0
          end
      end
  end.

(** [s.match(/re/g)]: the matches in text order, or [null]. *)
Definition String_match (re : regex) (s : jsstring) : option (list jsstring) :=
  match match_loop re None s 0 with
  | [] => None
  | l => Some l
  end.

(** [a || b] on the result of a match: [null] is the only falsy value. *)
Definition or_else {A} (a : option A) (b : A) : A :=
  match a with Some x => x | None => b end.

(** The loop of [split]: [piece] is the text since the last separator. *)
Fixpoint split_loop (re : regex) (prev : option ascii) (s : jsstring)
  (skip : nat) (piece : jsstring) : list jsstring :=
  match s with
  | [] => [piece]
  | c :: s' =>
      match skip with
      | S k => split_loop re (Some c) s' k piece
      | 0 =>
          match exec_at re prev s with
          | Some (S n) => piece :: split_loop re (Some c) s' n []
          | Some 0 =>
              match piece with
              | [] => split_loop re (Some c) s' 0 [c]
              | _ => piece :: split_loop re (Some c) s' 0 [c]
              end
          | None => split_loop re (Some c) s' 0 (piece ++ [c])
          end
      end
  end.

(** [s.split(/re/)] *)
Definition String_split (re : regex) (s : jsstring) : list jsstring :=
  match s with
  | [] => match exec_at re None [] with Some _ => [] | None => [[]] end
  | _ => split_loop re None s 0 []
  end.

(* ================================================================== *)
(** ** Numbers *)

Open Scope R_scope.

Definition Rltb (x y : R) : bool := if Rlt_dec x y then true else false.
Definition Rgtb (x y : R) : bool := Rltb y x.

(** [Math.floor] and [Math.round] (to the nearest integer, a tie to the
    larger one). *)
Definition Math_floor (x : R) : Z := (up x - 1)%Z.
Definition Math_round (x : R) : Z := Math_floor (x + 1 / 2).

Definition Math_max (x y : R) : R := Rmax x y.
Definition Math_min (x y : R) : R := Rmin x y.

(** [Math.pow(x, 2)] *)
Definition Math_pow2 (x : R) : R := x ^ 2.

(** [n || 1] on a length. *)
Definition or_one (n : nat) : nat := match n with 0%nat => 1%nat | _ => n end.

(** The decimal digits of a count, as a template literal prints it. *)
Definition digits (n : nat) : string :=
  DecimalString.NilEmpty.string_of_uint (Nat.to_uint n).

(* ================================================================== *)
(** ** The source of randomness and the monad of the computation *)

Record RandomSource : Type := mkSource {
  draws : nat -> R;
  cursor : nat
}.

Definition next_draw (g : RandomSource) : R := draws g (cursor g).
Definition advance (g : RandomSource) : RandomSource :=
  mkSource (draws g) (S (cursor g)).

(** Every draw of [Math.random()] lies in [0, 1). *)
Definition unit_draws (g : RandomSource) : Prop :=
  forall n, 0 <= draws g n < 1.

Definition M (A : Type) : Type := RandomSource -> option (A * RandomSource).

Definition ret {A} (x : A) : M A := fun g => Some (x, g).
Definition bind {A B} (c : M A) (k : A -> M B) : M B :=
  fun g => match c g with Some (x, g') => k x g' | None => None end.
Definition not_finite {A} : M A := fun _ => None.

Notation "x <- c ;; k" := (bind c (fun x => k))
  (at level 61, c at next level, right associativity).

Definition Math_random : M R := fun g => Some (next_draw g, advance g).

(** [a / b]; not a finite number when [b] is zero. *)
Definition divide (a b : R) : M R :=
  if Req_dec_T b 0 then not_finite else ret (a / b).

(** [Math.sqrt(a)]; not a number when [a] is negative. *)
Definition Math_sqrt (a : R) : M R :=
  if Rlt_dec a 0 then not_finite else ret (sqrt a).

(* ================================================================== *)
(** ** The result record (src/types.ts) *)

Record LinguisticAnalysis : Type := mkLinguistic {
  perplexityScore : Z;
  burstinessScore : Z;
  vocabularyRichness : Z;
  sentenceVariety : Z
}.

Record AnalysisResult : Type := mkResult {
  isAiGenerated : bool;
  aiProbability : Z;
  humanProbability : Z;
  verdictHeadline : string;
  summary : string;
  linguisticAnalysis : LinguisticAnalysis;
  flags : list string;
  suggestions : list string
}.

(* ================================================================== *)
(** ** analyzeResume *)

Definition aiMarkers : list jsstring := map str
  [ "spearheaded"; "orchestrated"; "leveraged"; "utilized"; "seamlessly";
    "pivotal"; "transformative"; "robust"; "paradigm"; "synergy";
    "demonstrated"; "proven track record"; "dynamic"; "meticulous";
    "navigated"; "fostered"; "results-driven"; "visionary" ]%string.

(** [a.includes(w)] *)
Definition includes (a : list jsstring) (w : jsstring) : bool :=
  existsb (jsstring_eqb w) a.

Definition flag_monotonic : string :=
  "Monotonic sentence structure (Low Burstiness)".
Definition flag_buzzwords (markerCount : nat) : string :=
  ("High density of buzzwords (" ++ digits markerCount ++ " found)")%string.
Definition flag_repetitive : string := "Repetitive vocabulary usage".
Definition flag_none : string := "No significant AI anomalies detected".

Definition headline_ai : string := "Likely AI-Generated Pattern".
Definition headline_human : string := "Likely Human-Written".
Definition summary_ai : string :=
  "The text exhibits characteristic uniformity in sentence structure and a high frequency of generic professional keywords often associated with AI language models.".
Definition summary_human : string :=
  "The writing exhibits natural variance in sentence length and vocabulary usage, suggesting authentic human composition with a unique personal voice.".
Definition suggestions_ai : list string :=
  [ "Vary your sentence lengths significantly";
    "Replace generic buzzwords (e.g., 'leveraged') with specific actions";
    "Add personal anecdotes or gritty details" ]%string.
Definition suggestions_human : list string :=
  [ "Maintain this natural tone";
    "Ensure specific metrics are included to back up claims" ]%string.

(** The local variables of one call, kept next to the record it returns. *)
Record Run : Type := mkRun {
  sentences : list jsstring;
  words : list jsstring;
  sentenceLengths : list nat;
  avgLen : R;
  variance : R;
  stdDev : R;
  uniqueWords : list jsstring;
  ttr : R;
  markerCount : nat;
  markerDensity : R;
  jitter : R;
  aiScore : R;
  humanScore : R;
  result : AnalysisResult
}.

(** [text.match(/[^.!?]+[.!?]+/g) || [text]] *)
Definition sentences_of (text : jsstring) : list jsstring :=
  or_else (String_match re_sentence text) [text].

(** [cleanText.match(/\b\w+\b/g) || []] *)
Definition words_of (cleanText : jsstring) : list jsstring :=
  or_else (String_match re_word cleanText) [].

(** [s.trim().split(/\s+/).length] *)
Definition sentence_length (s : jsstring) : nat :=
  length (String_split re_space (trim s)).

(** The block "Generate dynamic flags": an empty array and four
    conditional [push]es. *)
Definition dynamic_flags (stdDev : R) (markerCount : nat) (ttr : R)
  : list string :=
  let flags := [] in
  let flags := if Rltb stdDev 6 then flags ++ [flag_monotonic] else flags in
  let flags := if (2 <? markerCount)%nat
               then flags ++ [flag_buzzwords markerCount] else flags in
  let flags := if Rltb ttr 0.4 then flags ++ [flag_repetitive] else flags in
  let flags := if (length flags =? 0)%nat
               then flags ++ [flag_none] else flags in
  flags.

Definition analyze (text : jsstring) : M Run :=
  let cleanText := toLowerCase text in
  let sentences := sentences_of text in
  let words := words_of cleanText in
  let sentenceLengths := map sentence_length sentences in
  avgLen <- divide (fold_left (fun a b => a + INR b) sentenceLengths 0)
                (INR (or_one (length sentenceLengths))) ;;
  variance <- divide (fold_left (fun a b => a + Math_pow2 (INR b - avgLen))
                     sentenceLengths 0)
                  (INR (or_one (length sentenceLengths))) ;;
  stdDev <- Math_sqrt variance ;;
  let burstinessScore := Math_min 100 (Math_max 0 (stdDev * 8)) in
  let uniqueWords := nodup jsstring_dec words in
  ttr <- (if (0 <? length words)%nat
          then divide (INR (length uniqueWords)) (INR (length words))
          else ret 0) ;;
  let vocabScore := Math_min 100 (Math_max 0 (ttr * 160)) in
  let markerCount := length (filter (fun w => includes aiMarkers w) words) in
  markerDensity <- (if (0 <? length words)%nat
                    then divide (INR markerCount) (INR (length words))
                    else ret 0) ;;
  let aiScore := 50 in
  let aiScore := aiScore + (12 - stdDev) * 3 in
  let aiScore := aiScore + (0.55 - ttr) * 60 in
  let aiScore := aiScore + markerDensity * 800 in
  random1 <- Math_random ;;
  let jitter := random1 * 10 - 5 in
  let aiScore := aiScore + jitter in
  let aiScore := Math_max 5 (Math_min 98 aiScore) in
  let isAi := Rgtb aiScore 55 in
  let humanScore := 100 - aiScore in
  let flags := dynamic_flags stdDev markerCount ttr in
  random2 <- Math_random ;;
  ret (mkRun sentences words sentenceLengths avgLen variance stdDev
         uniqueWords ttr markerCount markerDensity jitter aiScore humanScore
         {| isAiGenerated := isAi;
            aiProbability := Math_round aiScore;
            humanProbability := Math_round humanScore;
            verdictHeadline := if isAi then headline_ai else headline_human;
            summary := if isAi then summary_ai else summary_human;
            linguisticAnalysis :=
              {| perplexityScore := Math_round (humanScore * 0.8 + random2 * 20);
                 burstinessScore := Math_round burstinessScore;
                 vocabularyRichness := Math_round vocabScore;
                 sentenceVariety := Math_round (Math_min 100 (variance * 2)) |};
            flags := flags;
            suggestions := if isAi then suggestions_ai else suggestions_human |}).

Definition analyzeResume (text : jsstring) : M AnalysisResult :=
  r <- analyze text ;; ret (result r).

(* ================================================================== *)
(** ** One call, step by step *)

(** What the local variables and the returned record of a call on [text]
    are, the source of randomness being [g] when the call starts. *)
Definition describes (text : jsstring) (g : RandomSource) (r : Run) : Prop :=
  let n := INR (or_one (length (sentenceLengths r))) in
  let res := result r in
  let la := linguisticAnalysis res in
  sentences r = sentences_of text
  /\ words r = words_of (toLowerCase text)
  /\ sentenceLengths r = map sentence_length (sentences r)
  /\ avgLen r = fold_left (fun a b => a + INR b) (sentenceLengths r) 0 / n
  /\ variance r
     = fold_left (fun a b => a + Math_pow2 (INR b - avgLen r))
         (sentenceLengths r) 0 / n
  /\ 0 <= variance r
  /\ stdDev r = sqrt (variance r)
  /\ uniqueWords r = nodup jsstring_dec (words r)
  /\ ttr r = (if (0 <? length (words r))%nat
             then INR (length (uniqueWords r)) / INR (length (words r))
             else 0)
  /\ markerCount r
     = length (filter (fun w => includes aiMarkers w) (words r))
  /\ markerDensity r = (if (0 <? length (words r))%nat
                       then INR (markerCount r) / INR (length (words r))
                       else 0)
  /\ jitter r = next_draw g * 10 - 5
  /\ aiScore r
     = Math_max 5 (Math_min 98
         (50 + (12 - stdDev r) * 3 + (0.55 - ttr r) * 60
          + markerDensity r * 800 + jitter r))
  /\ humanScore r = 100 - aiScore r
  /\ isAiGenerated res = Rgtb (aiScore r) 55
  /\ aiProbability res = Math_round (aiScore r)
  /\ humanProbability res = Math_round (humanScore r)
  /\ verdictHeadline res
     = (if isAiGenerated res then headline_ai else headline_human)
  /\ summary res = (if isAiGenerated res then summary_ai else summary_human)
  /\ perplexityScore la
     = Math_round (humanScore r * 0.8 + next_draw (advance g) * 20)
  /\ burstinessScore la
     = Math_round (Math_min 100 (Math_max 0 (stdDev r * 8)))
  /\ vocabularyRichness la
     = Math_round (Math_min 100 (Math_max 0 (ttr r * 160)))
  /\ sentenceVariety la = Math_round (Math_min 100 (variance r * 2))
  /\ flags res = dynamic_flags (stdDev r) (markerCount r) (ttr r)
  /\ suggestions res
     = (if isAiGenerated res then suggestions_ai else suggestions_human).

(* ================================================================== *)
(** ** Notions of the specification *)

(** The longest prefix of [s] in the class [p], and what follows it. *)
Fixpoint take_while (p : ascii -> bool) (s : jsstring) : jsstring :=
  match s with
  | c :: s' => if p c then c :: take_while p s' else []
  | [] => []
  end.

Fixpoint drop_while (p : ascii -> bool) (s : jsstring) : jsstring :=
  match s with
  | c :: s' => if p c then drop_while p s' else s
  | [] => []
  end.

Definition has_terminator (text : jsstring) : bool :=
  existsb is_terminator text.

(** A run of non-terminator characters followed by one or more
    terminators. *)
Definition terminated_run (x : jsstring) : Prop :=
  exists run terms,
    x = run ++ terms
    /\ run <> [] /\ terms <> []
    /\ Forall (fun c => is_terminator c = false) run
    /\ Forall (fun c => is_terminator c = true) terms.

(** [l] is the list, in text order, of the maximal runs of non-terminator
    characters of [text] that are followed by terminators, each with its
    terminators: the text is terminators, then the elements of [l] one
    after the other, then characters without a terminator.  (A run is
    maximal because a terminator, or nothing, stands before it.) *)
Definition segmentation (text : jsstring) (l : list jsstring) : Prop :=
  exists pre post,
    text = pre ++ concat l ++ post
    /\ Forall (fun c => is_terminator c = true) pre
    /\ Forall terminated_run l
    /\ Forall (fun c => is_terminator c = false) post.

(** A maximal run of word characters of [text]: word characters only,
    with a character that is not one, or nothing, on either side. *)
Definition word_run (text w : jsstring) : Prop :=
  exists before after,
    text = before ++ w ++ after
    /\ w <> []
    /\ Forall (fun c => is_word c = true) w
    /\ is_word_at (hd_error (rev before)) = false
    /\ is_word_at (hd_error after) = false.

(** [clamp(x, lo, hi)] *)
Definition clamp (x lo hi : R) : R :=
  if Rlt_dec x lo then lo else if Rlt_dec hi x then hi else x.

(** The record with its [perplexityScore] blanked. *)
Definition without_perplexity (res : AnalysisResult) : AnalysisResult :=
  let la := linguisticAnalysis res in
  mkResult (isAiGenerated res) (aiProbability res) (humanProbability res)
    (verdictHeadline res) (summary res)
    (mkLinguistic 0 (burstinessScore la) (vocabularyRichness la)
       (sentenceVariety la))
    (flags res) (suggestions res).

(** The two entries of [aiMarkers] that are not single words, and the
    sixteen others. *)
Definition phrase_markers : list jsstring :=
  map str [ "proven track record"; "results-driven" ]%string.

Definition aiMarkers16 : list jsstring := map str
  [ "spearheaded"; "orchestrated"; "leveraged"; "utilized"; "seamlessly";
    "pivotal"; "transformative"; "robust"; "paradigm"; "synergy";
    "demonstrated"; "dynamic"; "meticulous";
    "navigated"; "fostered"; "visionary" ]%string.

(* ================================================================== *)
(** ** Texts and sources of randomness used as examples *)

(** Eighteen times the word "leveraged", each followed by a period. *)
Definition leveraged18 : jsstring := concat (repeat (str "leveraged.") 18).

Definition text_ab : jsstring := str "a b.".
Definition text_dots : jsstring := str "...".
Definition text_no_end : jsstring := str "no end".
Definition text_two : jsstring := str "A b. C!".
Definition text_tail : jsstring := str " and more words".
Definition text_shout : jsstring := str "LEVERAGED Synergy, robust!".

(** A source whose first draw is [a] and whose other draws are [b]. *)
Definition source (a b : R) : RandomSource :=
  mkSource (fun n => match n with 0%nat => a | _ => b end) 0.

(* ================================================================== *)
(** ** Statements of the specification that the code does not meet *)

(** The segmentation as the specification words it: the terminated runs
    when a terminator occurs, the whole text when none does. *)
Definition sentence_split_as_specified : Prop :=
  forall text,
    (has_terminator text = true -> segmentation text (sentences_of text))
    /\ (has_terminator text = false -> sentences_of text = [text]).

(** The verdict read off the rounded percentage. *)
Definition verdict_from_rounded_percentage : Prop :=
  forall text g res g',
    unit_draws g ->
    analyzeResume text g = Some (res, g') ->
    isAiGenerated res = (55 <? aiProbability res)%Z.

(** The record as a function of the text and of the first draw alone. *)
Definition result_from_one_draw : Prop :=
  forall text g1 g2 res1 res2 g1' g2',
    unit_draws g1 -> unit_draws g2 ->
    next_draw g1 = next_draw g2 ->
    analyzeResume text g1 = Some (res1, g1') ->
    analyzeResume text g2 = Some (res2, g2') ->
    res1 = res2.

(* ================================================================== *)
(** ** Counting runs *)

(** The number of maximal runs of characters of the class [p] in [s];
    [inside] tells whether the character before [s] is in the class. *)
Fixpoint count_runs (p : ascii -> bool) (inside : bool) (s : jsstring) : nat :=
  match s with
  | [] => 0
  | c :: s' =>
      if p c then (if inside then 0 else 1) + count_runs p true s'
      else count_runs p false s'
  end.

Definition not_space (c : ascii) : bool := negb (is_space c).

(** The words of a sentence as [split(/\s+/)] sees them: the maximal runs
    of characters that are not white space. *)
Definition word_count (s : jsstring) : nat := count_runs not_space false s.

(** Digits, lower-case letters and the underscore. *)
Definition is_lower_word (c : ascii) : bool :=
  ((48 <=? code c) && (code c <=? 57))
  || (code c =? 95)
  || ((97 <=? code c) && (code c <=? 122)).

(* ================================================================== *)
(** ** The page (src/App.tsx) *)

Module App.

(** [enum AppState] of src/types.ts. *)
Inductive AppState : Type := IDLE | ANALYZING | RESULTS | ERROR.

Inductive ViewMode : Type := demo | code_view.

(** The four state variables of the component. *)
Record Model : Type := mkModel {
  appState : AppState;
  result : option AnalysisResult;
  errorMsg : string;
  viewMode : ViewMode
}.

Definition initial : Model := mkModel IDLE None "" demo.

(** What happens to the component.  [handleAnalyze] runs in two parts:
    up to its [await], and after it, when the promise of [analyzeResume]
    is resolved with a record or rejected with an error ([message] is
    [err.message], absent when the error has none). *)
Inductive Event : Type :=
| AnalyzeCalled (text : jsstring)
| AnalyzeResolved (data : AnalysisResult)
| AnalyzeRejected (message : option string)
| ResetClicked
| ViewModeSet (mode : ViewMode).

Definition default_error : string := "An error occurred during analysis.".

(** [err.message || "An error occurred during analysis."] *)
Definition message_or_default (message : option string) : string :=
  match message with
  | Some EmptyString => default_error
  | Some m => m
  | None => default_error
  end.

Definition step (st : Model) (e : Event) : Model :=
  match e with
  | AnalyzeCalled _ =>
      (* setAppState(ANALYZING); setErrorMsg('') *)
      mkModel ANALYZING (result st) "" (viewMode st)
  | AnalyzeResolved data =>
      (* setResult(data); setAppState(RESULTS) *)
      mkModel RESULTS (Some data) (errorMsg st) (viewMode st)
  | AnalyzeRejected message =>
      (* setErrorMsg(err.message || ...); setAppState(ERROR) *)
      mkModel ERROR (result st) (message_or_default message) (viewMode st)
  | ResetClicked =>
      (* handleReset: setAppState(IDLE); setResult(null) *)
      mkModel IDLE None (errorMsg st) (viewMode st)
  | ViewModeSet mode =>
      mkModel (appState st) (result st) (errorMsg st) mode
  end.

Definition run (events : list Event) : Model := fold_left step events initial.

(** What [<main>] renders. *)
Inductive Panel : Type := CodeViewer | Upload | ErrorPanel | ResultsPanel.

Definition panels (st : Model) : list Panel :=
  match viewMode st with
  | code_view => [CodeViewer]
  | demo =>
      (match appState st with
       | IDLE | ANALYZING => [Upload]
       | _ => []
       end)
      ++ (match appState st with ERROR => [ErrorPanel] | _ => [] end)
      ++ (match appState st, result st with
          | RESULTS, Some _ => [ResultsPanel]
          | _, _ => []
          end)
  end.

(** [Math.max(result.aiProbability, result.humanProbability)], the number
    printed after "Confidence:". *)
Definition confidence (res : AnalysisResult) : Z :=
  Z.max (aiProbability res) (humanProbability res).

End App.

(** What every state of the page keeps. *)
Definition page_invariant (st : App.Model) : Prop :=
  (App.appState st = App.RESULTS -> App.result st <> None)
  /\ (App.appState st = App.ERROR -> App.errorMsg st <> ""%string).

(* ================================================================== *)
(** ** The upload form (src/components/FileUpload.tsx) *)

Module FileUpload.

(** [s.endsWith(search)] *)
Definition endsWith (s search : jsstring) : bool :=
  (length search <=? length s)%nat
  && jsstring_eqb (skipn (length s - length search) s) search.

(** [a.join(sep)] *)
Fixpoint join (sep : jsstring) (a : list jsstring) : jsstring :=
  match a with
  | [] => []
  | [x] => x
  | x :: rest => x ++ sep ++ join sep rest
  end.

(** A file as the form sees it: its name, and what each of the three
    readers gives on it when it does not fail: the text items of every page
    (pdf.js), the raw text (mammoth), the content read as text
    ([FileReader]). *)
Record File : Type := mkFile {
  name : jsstring;
  pdf_pages : option (list (list jsstring));
  docx_raw_text : option jsstring;
  plain_text : option jsstring
}.

Inductive Kind : Type := Pdf | Docx | PlainText.

(** The branch [readFile] takes on [file.name.toLowerCase()]. *)
Definition kind_of_name (file_name : jsstring) : Kind :=
  let name := toLowerCase file_name in
  if endsWith name (str ".pdf") then Pdf
  else if endsWith name (str ".docx") || endsWith name (str ".doc") then Docx
  else PlainText.

(** The loop of [extractTextFromPdf] over the pages. *)
Definition extractTextFromPdf (pages : list (list jsstring)) : jsstring :=
  fold_left
    (fun fullText items => fullText ++ (join (str " ") items ++ str (String "010" "")))
    pages [].

Definition extract (f : File) : option jsstring :=
  match kind_of_name (name f) with
  | Pdf => option_map extractTextFromPdf (pdf_pages f)
  | Docx => docx_raw_text f
  | PlainText => plain_text f
  end.

Record State : Type := mkState {
  text : jsstring;
  dragActive : bool;
  isExtracting : bool;
  extractionError : option string
}.

Definition extraction_failed : string :=
  "Failed to read file. Please ensure it is a valid text-based PDF or DOCX, or copy-paste the text manually.".

(** [readFile] up to its first [await]. *)
Definition readFile_begin (st : State) : State :=
  mkState [] (dragActive st) true None.

(** [readFile] from there: the [try] block with its test of
    [extractedText.trim()], the [catch] and the [finally]. *)
Definition readFile_end (st : State) (f : File) : State :=
  let st :=
    match extract f with
    | Some extractedText =>
        match trim extractedText with
        | [] => (* throw, caught *)
            mkState (text st) (dragActive st) (isExtracting st)
              (Some extraction_failed)
        | _ => mkState extractedText (dragActive st) (isExtracting st)
                 (extractionError st)
        end
    | None =>
        mkState (text st) (dragActive st) (isExtracting st)
          (Some extraction_failed)
    end in
  mkState (text st) (dragActive st) false (extractionError st).

Definition readFile (st : State) (f : File) : State :=
  readFile_end (readFile_begin st) f.

(** The button "Detect AI Content" is not [disabled]. *)
Definition can_analyze (st : State) (isAnalyzing : bool) : bool :=
  let isBusy := isAnalyzing || isExtracting st in
  negb ((match trim (text st) with [] => true | _ => false end) || isBusy).

End FileUpload.

Definition name_cv_upper : jsstring := str "My CV.PDF".

(** A PDF of two pages without a visible character, as a scan gives. *)
Definition scanned_pdf : FileUpload.File :=
  FileUpload.mkFile (str "scan.pdf") (Some [[[]; str " "]; []]) None None.

Definition form_start : FileUpload.State :=
  FileUpload.mkState [] false false None.

(* ================================================================== *)
(** ** analyzeResume in double precision *)

(** The same function with the arithmetic of the language: the result of
    every addition, subtraction, multiplication, division and square root
    is rounded to a double by [rnd], and a decimal literal stands for the
    double [rnd] gives for it.  [pow2 x] is [Math.pow(x, 2)], which the
    language leaves to the implementation.  Comparisons, [Math.max],
    [Math.min] and [Math.round] are exact on doubles.  With the rounding of
    IEEE 754 binary64 (to nearest, ties to even) this is the computation of
    the source as long as no operation overflows. *)
Section Doubles.

Variable rnd : R -> R.
Variable pow2 : R -> R.

Definition add64 (x y : R) : R := rnd (x + y).
Definition sub64 (x y : R) : R := rnd (x - y).
Definition mul64 (x y : R) : R := rnd (x * y).
Definition literal64 (x : R) : R := rnd x.

Definition divide64 (a b : R) : M R :=
  if Req_dec_T b 0 then not_finite else ret (rnd (a / b)).

Definition Math_sqrt64 (a : R) : M R :=
  if Rlt_dec a 0 then not_finite else ret (rnd (sqrt a)).

Definition dynamic_flags64 (stdDev : R) (markerCount : nat) (ttr : R)
  : list string :=
  let flags := [] in
  let flags := if Rltb stdDev 6 then flags ++ [flag_monotonic] else flags in
  let flags := if (2 <? markerCount)%nat
               then flags ++ [flag_buzzwords markerCount] else flags in
  let flags := if Rltb ttr (literal64 0.4)
               then flags ++ [flag_repetitive] else flags in
  let flags := if (length flags =? 0)%nat
               then flags ++ [flag_none] else flags in
  flags.

Definition analyze64 (text : jsstring) : M Run :=
  let cleanText := toLowerCase text in
  let sentences := sentences_of text in
  let words := words_of cleanText in
  let sentenceLengths := map sentence_length sentences in
  avgLen <- divide64 (fold_left (fun a b => add64 a (INR b)) sentenceLengths 0)
                     (INR (or_one (length sentenceLengths))) ;;
  variance <- divide64
                (fold_left (fun a b => add64 a (pow2 (sub64 (INR b) avgLen)))
                   sentenceLengths 0)
                (INR (or_one (length sentenceLengths))) ;;
  stdDev <- Math_sqrt64 variance ;;
  let burstinessScore := Math_min 100 (Math_max 0 (mul64 stdDev 8)) in
  let uniqueWords := nodup jsstring_dec words in
  ttr <- (if (0 <? length words)%nat
          then divide64 (INR (length uniqueWords)) (INR (length words))
          else ret 0) ;;
  let vocabScore := Math_min 100 (Math_max 0 (mul64 ttr 160)) in
  let markerCount := length (filter (fun w => includes aiMarkers w) words) in
  markerDensity <- (if (0 <? length words)%nat
                    then divide64 (INR markerCount) (INR (length words))
                    else ret 0) ;;
  let aiScore := 50 in
  let aiScore := add64 aiScore (mul64 (sub64 12 stdDev) 3) in
  let aiScore := add64 aiScore (mul64 (sub64 (literal64 0.55) ttr) 60) in
  let aiScore := add64 aiScore (mul64 markerDensity 800) in
  random1 <- Math_random ;;
  let jitter := sub64 (mul64 random1 10) 5 in
  let aiScore := add64 aiScore jitter in
  let aiScore := Math_max 5 (Math_min 98 aiScore) in
  let isAi := Rgtb aiScore 55 in
  let humanScore := sub64 100 aiScore in
  let flags := dynamic_flags64 stdDev markerCount ttr in
  random2 <- Math_random ;;
  ret (mkRun sentences words sentenceLengths avgLen variance stdDev
         uniqueWords ttr markerCount markerDensity jitter aiScore humanScore
         {| isAiGenerated := isAi;
            aiProbability := Math_round aiScore;
            humanProbability := Math_round humanScore;
            verdictHeadline := if isAi then headline_ai else headline_human;
            summary := if isAi then summary_ai else summary_human;
            linguisticAnalysis :=
              {| perplexityScore :=
                   Math_round (add64 (mul64 humanScore (literal64 0.8))
                                 (mul64 random2 20));
                 burstinessScore := Math_round burstinessScore;
                 vocabularyRichness := Math_round vocabScore;
                 sentenceVariety :=
                   Math_round (Math_min 100 (mul64 variance 2)) |};
            flags := flags;
            suggestions := if isAi then suggestions_ai else suggestions_human |}).

Definition analyzeResume64 (text : jsstring) : M AnalysisResult :=
  r <- analyze64 text ;; ret (result r).

(** The features of [text] in the local variables of a call: each one is
    the value the code computes from the text. *)
Definition text_features64 (text : jsstring) (r : Run) : Prop :=
  let n := INR (or_one (length (sentenceLengths r))) in
  sentences r = sentences_of text
  /\ words r = words_of (toLowerCase text)
  /\ sentenceLengths r = map sentence_length (sentences_of text)
  /\ avgLen r
     = rnd (fold_left (fun a b => add64 a (INR b)) (sentenceLengths r) 0 / n)
  /\ variance r
     = rnd (fold_left (fun a b => add64 a (pow2 (sub64 (INR b) (avgLen r))))
              (sentenceLengths r) 0 / n)
  /\ stdDev r = rnd (sqrt (variance r))
  /\ uniqueWords r = nodup jsstring_dec (words r)
  /\ ttr r = (if (0 <? length (words r))%nat
             then rnd (INR (length (uniqueWords r)) / INR (length (words r)))
             else 0)
  /\ markerCount r
     = length (filter (fun w => includes aiMarkers w) (words r))
  /\ markerDensity r = (if (0 <? length (words r))%nat
                       then rnd (INR (markerCount r) / INR (length (words r)))
                       else 0).

(** The score before the jitter: the three [+=] on [aiScore = 50]. *)
Definition base_score64 (r : Run) : R :=
  add64 (add64 (add64 50 (mul64 (sub64 12 (stdDev r)) 3))
           (mul64 (sub64 (literal64 0.55) (ttr r)) 60))
    (mul64 (markerDensity r) 800).

(** What the rest of the local variables and the returned record are. *)
Definition scoring64 (g : RandomSource) (r : Run) : Prop :=
  let res := result r in
  let la := linguisticAnalysis res in
  0 <= variance r
  /\ jitter r = sub64 (mul64 (next_draw g) 10) 5
  /\ aiScore r = Math_max 5 (Math_min 98 (add64 (base_score64 r) (jitter r)))
  /\ humanScore r = sub64 100 (aiScore r)
  /\ isAiGenerated res = Rgtb (aiScore r) 55
  /\ aiProbability res = Math_round (aiScore r)
  /\ humanProbability res = Math_round (humanScore r)
  /\ verdictHeadline res
     = (if isAiGenerated res then headline_ai else headline_human)
  /\ summary res = (if isAiGenerated res then summary_ai else summary_human)
  /\ perplexityScore la
     = Math_round (add64 (mul64 (humanScore r) (literal64 0.8))
                     (mul64 (next_draw (advance g)) 20))
  /\ burstinessScore la
     = Math_round (Math_min 100 (Math_max 0 (mul64 (stdDev r) 8)))
  /\ vocabularyRichness la
     = Math_round (Math_min 100 (Math_max 0 (mul64 (ttr r) 160)))
  /\ sentenceVariety la
     = Math_round (Math_min 100 (mul64 (variance r) 2))
  /\ flags res = dynamic_flags64 (stdDev r) (markerCount r) (ttr r)
  /\ suggestions res
     = (if isAiGenerated res then suggestions_ai else suggestions_human).

End Doubles.

(** What is used of the rounding: it is monotone, and it leaves the
    integers and the halves of integers that a double holds as they are.
    IEEE 754 binary64 rounding to nearest is such a rounding. *)
Definition rounding (rnd : R -> R) : Prop :=
  (forall x y, x <= y -> rnd x <= rnd y)
  /\ (forall k : Z,
        (Z.abs k <= 2 ^ 53)%Z -> rnd (IZR k / 2) = IZR k / 2).

(** What is used of [Math.pow(x, 2)]: its result is not negative. *)
Definition squaring (pow2 : R -> R) : Prop := forall x, 0 <= pow2 x.

(** The arithmetic without rounding error. *)
Definition exact (x : R) : R := x.
Definition square (x : R) : R := x ^ 2.

(* ================================================================== *)
(** * Properties *)

Example ex_match_1 :
  String_match re_sentence (str "Hi there. Who?! me")
  = Some [str "Hi there."; str " Who?!"].
Proof. vm_compute. reflexivity. Qed.

Example ex_match_2 : String_match re_sentence (str "...abc") = None.
Proof. vm_compute. reflexivity. Qed.

Example ex_words_1 :
  String_match re_word (toLowerCase (str "Results-Driven, a_b c3!"))
  = Some [str "results"; str "driven"; str "a_b"; str "c3"].
Proof. vm_compute. reflexivity. Qed.

Example ex_split_1 :
  String_split re_space (trim (str "  Hi   there  you. "))
  = [str "Hi"; str "there"; str "you."].
Proof. vm_compute. reflexivity. Qed.

Example ex_split_2 : String_split re_space (trim (str "  ")) = [[]].
Proof. vm_compute. reflexivity. Qed.

Example ex_sentence_lengths :
  map sentence_length (sentences_of (str "Hi there. Who?!  Me too ."))
  = [2; 1; 3]%nat.
Proof. vm_compute. reflexivity. Qed.

Example ex_fallback : sentences_of (str "no end") = [str "no end"].
Proof. vm_compute. reflexivity. Qed.

(* ================================================================== *)
(** ** Numbers: rounding, guarded operations *)

Lemma Math_floor_spec (x : R) :
  IZR (Math_floor x) <= x < IZR (Math_floor x) + 1.
Proof.
  unfold Math_floor. rewrite minus_IZR.
  destruct (archimed x) as [Hgt Hle]. lra.
Qed.

Lemma Math_floor_unique (x : R) (n : Z) :
  IZR n <= x < IZR n + 1 -> Math_floor x = n.
Proof.
  intros [Hlo Hhi].
  destruct (Math_floor_spec x) as [Flo Fhi].
  assert (H1 : (Math_floor x < n + 1)%Z).
  { apply lt_IZR. rewrite plus_IZR. lra. }
  assert (H2 : (n < Math_floor x + 1)%Z).
  { apply lt_IZR. rewrite plus_IZR. lra. }
  lia.
Qed.

Lemma Math_round_spec (x : R) :
  IZR (Math_round x) - 1 / 2 <= x < IZR (Math_round x) + 1 / 2.
Proof.
  unfold Math_round. destruct (Math_floor_spec (x + 1 / 2)). lra.
Qed.

Lemma Math_round_unique (x : R) (n : Z) :
  IZR n - 1 / 2 <= x < IZR n + 1 / 2 -> Math_round x = n.
Proof.
  intros H. unfold Math_round. apply Math_floor_unique. lra.
Qed.

Lemma Math_round_IZR (n : Z) : Math_round (IZR n) = n.
Proof. apply Math_round_unique. lra. Qed.

(** Rounding keeps a number between two integers between them. *)
Lemma Math_round_between (x : R) (a b : Z) :
  IZR a <= x <= IZR b -> (a <= Math_round x <= b)%Z.
Proof.
  intros [Ha Hb]. destruct (Math_round_spec x) as [Rlo Rhi].
  split.
  - assert (H : (a < Math_round x + 1)%Z).
    { apply lt_IZR. rewrite plus_IZR. lra. }
    lia.
  - assert (H : (Math_round x < b + 1)%Z).
    { apply lt_IZR. rewrite plus_IZR. lra. }
    lia.
Qed.

Lemma Math_round_between_half (x : R) (a b : Z) :
  IZR a - 1 / 2 <= x < IZR b + 1 / 2 -> (a <= Math_round x <= b)%Z.
Proof.
  intros [Ha Hb]. destruct (Math_round_spec x) as [Rlo Rhi].
  split.
  - assert (H : (a < Math_round x + 1)%Z).
    { apply lt_IZR. rewrite plus_IZR. lra. }
    lia.
  - assert (H : (Math_round x < b + 1)%Z).
    { apply lt_IZR. rewrite plus_IZR. lra. }
    lia.
Qed.

Lemma Rltb_true (x y : R) : Rltb x y = true <-> x < y.
Proof. unfold Rltb. destruct (Rlt_dec x y); split; intros; try easy; lra. Qed.

Lemma Rltb_false (x y : R) : Rltb x y = false <-> y <= x.
Proof. unfold Rltb. destruct (Rlt_dec x y); split; intros; try easy; lra. Qed.

Lemma Rgtb_true (x y : R) : Rgtb x y = true <-> x > y.
Proof. unfold Rgtb. rewrite Rltb_true. lra. Qed.

Lemma clamp_bounds (lo hi x : R) :
  lo <= hi -> lo <= Math_max lo (Math_min hi x) <= hi.
Proof.
  intros H. unfold Math_max, Math_min, Rmax, Rmin.
  destruct (Rle_dec hi x); destruct (Rle_dec lo _); lra.
Qed.

Lemma min_max_bounds (lo hi x : R) :
  lo <= hi -> lo <= Math_min hi (Math_max lo x) <= hi.
Proof.
  intros H. unfold Math_max, Math_min, Rmax, Rmin.
  destruct (Rle_dec lo x); destruct (Rle_dec hi _); lra.
Qed.

Lemma divide_inv (a b x : R) (g g' : RandomSource) :
  divide a b g = Some (x, g') -> b <> 0 /\ x = a / b /\ g' = g.
Proof.
  unfold divide, not_finite, ret. destruct (Req_dec_T b 0); [discriminate|].
  intros H. inversion H. auto.
Qed.

Lemma divide_ok (a b : R) (g : RandomSource) :
  b <> 0 -> divide a b g = Some (a / b, g).
Proof.
  intros H. unfold divide, ret. destruct (Req_dec_T b 0); [contradiction|reflexivity].
Qed.

Lemma Math_sqrt_inv (a x : R) (g g' : RandomSource) :
  Math_sqrt a g = Some (x, g') -> 0 <= a /\ x = sqrt a /\ g' = g.
Proof.
  unfold Math_sqrt, not_finite, ret. destruct (Rlt_dec a 0); [discriminate|].
  intros H. inversion H. repeat split; lra.
Qed.

Lemma Math_sqrt_ok (a : R) (g : RandomSource) :
  0 <= a -> Math_sqrt a g = Some (sqrt a, g).
Proof.
  intros H. unfold Math_sqrt, ret. destruct (Rlt_dec a 0); [lra|reflexivity].
Qed.

Lemma or_one_pos (n : nat) : INR (or_one n) <> 0.
Proof.
  apply not_0_INR. destruct n; simpl; lia.
Qed.

Lemma or_one_gt0 (n : nat) : 0 < INR (or_one n).
Proof.
  apply lt_0_INR. destruct n; simpl; lia.
Qed.

Lemma sum_squares_nonneg (m : R) (l : list nat) (acc : R) :
  0 <= acc ->
  0 <= fold_left (fun a b => a + Math_pow2 (INR b - m)) l acc.
Proof.
  revert acc. induction l as [|b l IH]; intros acc Hacc; simpl.
  - exact Hacc.
  - apply IH. unfold Math_pow2.
    pose proof (pow2_ge_0 (INR b - m)). lra.
Qed.

(* ================================================================== *)
(** ** Every call returns *)

Ltac run_step H :=
  match type of H with
  | match divide ?a ?b ?g with _ => _ end = _ =>
      let x := fresh "x" in let g' := fresh "g" in let E := fresh "E" in
      destruct (divide a b g) as [[x g']|] eqn:E; [|discriminate H];
      apply divide_inv in E; destruct E as (? & ? & ?); subst x g'
  | match Math_sqrt ?a ?g with _ => _ end = _ =>
      let x := fresh "x" in let g' := fresh "g" in let E := fresh "E" in
      destruct (Math_sqrt a g) as [[x g']|] eqn:E; [|discriminate H];
      apply Math_sqrt_inv in E; destruct E as (? & ? & ?); subst x g'
  end.

Lemma analyze_inv (text : jsstring) (g g' : RandomSource) (r : Run) :
  analyze text g = Some (r, g') ->
  describes text g r /\ g' = advance (advance g).
Proof.
  unfold analyze, bind. intros H.
  do 3 run_step H.
  destruct (0 <? length (words_of (toLowerCase text)))%nat
    eqn:Ew.
  - do 2 run_step H.
    unfold Math_random, ret in H. inversion H; subst r g'; clear H.
    unfold describes; cbv zeta;
      cbn [sentences words sentenceLengths avgLen variance stdDev uniqueWords
           ttr markerCount markerDensity jitter aiScore humanScore result
           isAiGenerated aiProbability humanProbability verdictHeadline summary
           linguisticAnalysis flags suggestions perplexityScore burstinessScore
           vocabularyRichness sentenceVariety].
    rewrite Ew. repeat split; auto.
  - unfold Math_random, ret in H. inversion H; subst r g'; clear H.
    unfold describes; cbv zeta;
      cbn [sentences words sentenceLengths avgLen variance stdDev uniqueWords
           ttr markerCount markerDensity jitter aiScore humanScore result
           isAiGenerated aiProbability humanProbability verdictHeadline summary
           linguisticAnalysis flags suggestions perplexityScore burstinessScore
           vocabularyRichness sentenceVariety].
    rewrite Ew. repeat split; auto.
Qed.

(** Every call returns, having read two draws: each division has a
    non-zero denominator and the square root a non-negative argument. *)
Lemma analyze_total (text : jsstring) (g : RandomSource) :
  exists r, analyze text g = Some (r, advance (advance g)).
Proof.
  unfold analyze, bind.
  rewrite divide_ok by apply or_one_pos.
  rewrite divide_ok by apply or_one_pos.
  rewrite Math_sqrt_ok.
  2:{ apply Rmult_le_pos.
      - apply sum_squares_nonneg. lra.
      - left. apply Rinv_0_lt_compat, or_one_gt0. }
  destruct (0 <? length (words_of (toLowerCase text)))%nat
    eqn:Ew.
  - apply Nat.ltb_lt in Ew.
    assert (Hw : INR (length (words_of (toLowerCase text))) <> 0).
    { apply not_0_INR. lia. }
    rewrite !divide_ok by exact Hw.
    unfold Math_random, ret. eexists. reflexivity.
  - unfold Math_random, ret. eexists. reflexivity.
Qed.

Lemma analyze_run (text : jsstring) (g : RandomSource) :
  exists r, analyze text g = Some (r, advance (advance g))
            /\ describes text g r.
Proof.
  destruct (analyze_total text g) as [r Hr].
  exists r. split; [exact Hr|]. exact (proj1 (analyze_inv _ _ _ _ Hr)).
Qed.

Lemma analyzeResume_run (text : jsstring) (g : RandomSource) (r : Run) :
  analyze text g = Some (r, advance (advance g)) ->
  analyzeResume text g = Some (result r, advance (advance g)).
Proof.
  intros H. unfold analyzeResume, bind. rewrite H. reflexivity.
Qed.

(* ================================================================== *)
(** ** The three patterns *)

Lemma not_terminator_false (c : ascii) :
  not_terminator c = false <-> is_terminator c = true.
Proof. unfold not_terminator. destruct (is_terminator c); simpl; intuition congruence. Qed.

Lemma not_terminator_true (c : ascii) :
  not_terminator c = true <-> is_terminator c = false.
Proof. unfold not_terminator. destruct (is_terminator c); simpl; intuition congruence. Qed.

Lemma take_drop_while (p : ascii -> bool) (s : jsstring) :
  take_while p s ++ drop_while p s = s.
Proof.
  induction s as [|c s IH]; simpl; [reflexivity|].
  destruct (p c); simpl; [now rewrite IH | reflexivity].
Qed.

Lemma take_while_all (p : ascii -> bool) (s : jsstring) :
  Forall (fun c => p c = true) (take_while p s).
Proof.
  induction s as [|c s IH]; simpl; [constructor|].
  destruct (p c) eqn:E; constructor; assumption.
Qed.

Lemma drop_while_head (p : ascii -> bool) (s : jsstring) :
  match drop_while p s with c :: _ => p c = false | [] => True end.
Proof.
  induction s as [|c s IH]; simpl; [exact I|].
  destruct (p c) eqn:E; [exact IH | exact E].
Qed.

Lemma firstn_take_while (p : ascii -> bool) (s : jsstring) :
  firstn (length (take_while p s)) s = take_while p s.
Proof.
  induction s as [|c s IH]; simpl; [reflexivity|].
  destruct (p c); simpl; [now rewrite IH | reflexivity].
Qed.

Lemma skipn_take_while (p : ascii -> bool) (s : jsstring) :
  skipn (length (take_while p s)) s = drop_while p s.
Proof.
  induction s as [|c s IH]; simpl; [reflexivity|].
  destruct (p c); simpl; [exact IH | reflexivity].
Qed.

(** One step of the loop of [C+]. *)
Lemma exec_at_plus_cons cls rest prev c s :
  exec_at (Plus cls :: rest) prev (c :: s)
  = if cls c then
      match exec_at (Plus cls :: rest) (Some c) s with
      | Some n => Some (S n)
      | None => option_map S (exec_at rest (Some c) s)
      end
    else None.
Proof. reflexivity. Qed.

Lemma exec_at_plus_nil cls rest prev :
  exec_at (Plus cls :: rest) prev [] = None.
Proof. reflexivity. Qed.

(** [/C+/] alone matches the longest prefix in the class, when it is not
    empty. *)
Lemma exec_at_plus_only cls prev s :
  exec_at [Plus cls] prev s
  = match take_while cls s with
    | [] => None
    | run => Some (length run)
    end.
Proof.
  revert prev. induction s as [|c s IH]; intros prev; [reflexivity|].
  rewrite exec_at_plus_cons. simpl take_while.
  destruct (cls c); [|reflexivity].
  rewrite IH. destruct (take_while cls s); reflexivity.
Qed.

(** [/[^.!?]+[.!?]+/]: the longest run of non-terminators, not empty, and
    the longest run of terminators behind it, not empty. *)
Lemma exec_at_sentence prev s :
  exec_at re_sentence prev s
  = match take_while not_terminator s,
          take_while is_terminator (drop_while not_terminator s) with
    | (_ :: _) as run, (_ :: _) as terms =>
        Some (length run + length terms)%nat
    | _, _ => None
    end.
Proof.
  unfold re_sentence.
  revert prev. induction s as [|c s IH]; intros prev; [reflexivity|].
  rewrite exec_at_plus_cons. simpl take_while. simpl drop_while.
  destruct (not_terminator c) eqn:Ec; [|reflexivity].
  rewrite IH. rewrite exec_at_plus_only.
  destruct s as [|d s]; [reflexivity|].
  simpl take_while. simpl drop_while.
  destruct (not_terminator d) eqn:Ed.
  - apply not_terminator_true in Ed. rewrite Ed.
    destruct (take_while is_terminator (drop_while not_terminator s));
      reflexivity.
  - apply not_terminator_false in Ed. rewrite Ed.
    simpl. rewrite Ed. reflexivity.
Qed.

(** [/\w+\b/]: the longest run of word characters, when it is not empty. *)
Lemma exec_at_word_tail prev s :
  exec_at [Plus is_word; WordBoundary] prev s
  = match take_while is_word s with
    | [] => None
    | run => Some (length run)
    end.
Proof.
  revert prev. induction s as [|c s IH]; intros prev; [reflexivity|].
  rewrite exec_at_plus_cons. simpl take_while.
  destruct (is_word c) eqn:Ec; [|reflexivity].
  rewrite IH.
  destruct s as [|d s]; [simpl; rewrite Ec; reflexivity|].
  simpl take_while. destruct (is_word d) eqn:Ed; [reflexivity|].
  simpl. rewrite Ec, Ed. reflexivity.
Qed.

(** [/\b\w+\b/]: as above, at the start of a word only. *)
Lemma exec_at_word prev s :
  exec_at re_word prev s
  = if is_word_at prev then None
    else match take_while is_word s with
         | [] => None
         | run => Some (length run)
         end.
Proof.
  unfold re_word.
  change (exec_at (WordBoundary :: [Plus is_word; WordBoundary]) prev s)
    with (if xorb (is_word_at prev) (is_word_at (hd_error s))
          then exec_at [Plus is_word; WordBoundary] prev s else None).
  rewrite exec_at_word_tail.
  destruct (is_word_at prev); destruct s as [|c s]; simpl; try reflexivity;
    destruct (is_word c); reflexivity.
Qed.

(* ================================================================== *)
(** ** The sentences of a text *)

Lemma match_loop_cons re prev c s :
  match_loop re prev (c :: s) 0
  = match exec_at re prev (c :: s) with
    | Some n => firstn n (c :: s) :: match_loop re (Some c) s (pred n)
    | None => match_loop re (Some c) s 0
    end.
Proof. reflexivity. Qed.

Lemma match_loop_cons_skip re prev c s k :
  match_loop re prev (c :: s) (S k) = match_loop re (Some c) s k.
Proof. reflexivity. Qed.

Lemma drop_while_all (p : ascii -> bool) (s : jsstring) :
  Forall (fun c => p c = true) s -> drop_while p s = [].
Proof.
  induction 1 as [|c s Hc Hs IH]; simpl; [reflexivity|].
  rewrite Hc. exact IH.
Qed.

Lemma take_while_all_eq (p : ascii -> bool) (s : jsstring) :
  Forall (fun c => p c = true) s -> take_while p s = s.
Proof.
  induction 1 as [|c s Hc Hs IH]; simpl; [reflexivity|].
  rewrite Hc, IH. reflexivity.
Qed.

Lemma Forall_not_terminator (s : jsstring) :
  Forall (fun c => is_terminator c = false) s <->
  Forall (fun c => not_terminator c = true) s.
Proof.
  split; intros H; eapply Forall_impl; try exact H;
    intros c; apply not_terminator_true.
Qed.

Lemma match_loop_sentence_prev prev prev' s k :
  match_loop re_sentence prev s k = match_loop re_sentence prev' s k.
Proof.
  revert prev prev' k. induction s as [|c s IH]; intros prev prev' k.
  - reflexivity.
  - destruct k as [|k]; [|reflexivity].
    rewrite !match_loop_cons.
    rewrite (exec_at_sentence prev), (exec_at_sentence prev'). reflexivity.
Qed.

Lemma match_loop_sentence_skip prev s k :
  match_loop re_sentence prev s k
  = match_loop re_sentence None (skipn k s) 0.
Proof.
  revert prev k. induction s as [|c s IH]; intros prev k.
  - destruct k; reflexivity.
  - destruct k as [|k].
    + apply match_loop_sentence_prev.
    + rewrite match_loop_cons_skip. simpl skipn. apply IH.
Qed.

(** In a text without a terminator the pattern is found nowhere. *)
Lemma match_loop_sentence_open prev s :
  Forall (fun c => is_terminator c = false) s ->
  match_loop re_sentence prev s 0 = [].
Proof.
  revert prev. induction s as [|c s IH]; intros prev H; [reflexivity|].
  rewrite match_loop_cons, exec_at_sentence.
  rewrite (drop_while_all not_terminator)
    by (apply Forall_not_terminator; exact H).
  inversion H; subst.
  simpl take_while at 2.
  destruct (take_while not_terminator (c :: s)); apply IH; assumption.
Qed.

(** The loop at a terminator, and at the start of a run. *)
Lemma match_loop_sentence_step prev c s :
  match_loop re_sentence prev (c :: s) 0
  = if is_terminator c then match_loop re_sentence None s 0
    else
      let run := take_while not_terminator (c :: s) in
      let rest := drop_while not_terminator (c :: s) in
      match take_while is_terminator rest with
      | [] => []
      | terms =>
          (run ++ terms)
            :: match_loop re_sentence None (drop_while is_terminator rest) 0
      end.
Proof.
  rewrite match_loop_cons, exec_at_sentence.
  destruct (is_terminator c) eqn:Ec.
  - assert (En : not_terminator c = false) by (apply not_terminator_false; exact Ec).
    simpl take_while at 1. rewrite En. apply match_loop_sentence_prev.
  - assert (En : not_terminator c = true) by (apply not_terminator_true; exact Ec).
    cbv zeta.
    destruct (take_while is_terminator (drop_while not_terminator (c :: s)))
      as [|t terms] eqn:Et.
    + (* the run reaches the end of the text *)
      assert (Hrest : drop_while not_terminator (c :: s) = []).
      { pose proof (drop_while_head not_terminator (c :: s)) as Hh.
        destruct (drop_while not_terminator (c :: s)) as [|d rest]; [reflexivity|].
        apply not_terminator_false in Hh. simpl in Et. rewrite Hh in Et.
        discriminate. }
      assert (Hall : Forall (fun c => is_terminator c = false) (c :: s)).
      { apply Forall_not_terminator.
        rewrite <- (take_drop_while not_terminator (c :: s)), Hrest, app_nil_r.
        apply take_while_all. }
      inversion Hall; subst.
      destruct (take_while not_terminator (c :: s));
        apply match_loop_sentence_open; assumption.
    + simpl take_while at 1. rewrite En.
      set (run := c :: take_while not_terminator s).
      assert (Hrun : run = take_while not_terminator (c :: s))
        by (simpl; rewrite En; reflexivity).
      set (n := (length run + length (t :: terms))%nat).
      assert (Hfirst : firstn n (c :: s) = run ++ t :: terms).
      { unfold n. rewrite <- (take_drop_while not_terminator (c :: s)) at 1.
        rewrite <- Hrun. rewrite firstn_app.
        rewrite firstn_all2 by lia.
        replace (length run + length (t :: terms) - length run)%nat
          with (length (t :: terms)) by lia.
        rewrite <- Et. rewrite firstn_take_while. reflexivity. }
      assert (Hskip : skipn n (c :: s)
                      = drop_while is_terminator
                          (drop_while not_terminator (c :: s))).
      { unfold n. rewrite <- (take_drop_while not_terminator (c :: s)) at 1.
        rewrite <- Hrun. rewrite skipn_app.
        rewrite skipn_all2 by lia.
        replace (length run + length (t :: terms) - length run)%nat
          with (length (t :: terms)) by lia.
        rewrite <- Et. rewrite skipn_take_while. reflexivity. }
      rewrite Hfirst. f_equal.
      * rewrite Hrun. reflexivity.
      * rewrite match_loop_sentence_skip.
        rewrite <- Hskip. unfold n. simpl length. reflexivity.
Qed.

Lemma take_while_app_stop (p : ascii -> bool) (a b : jsstring) :
  Forall (fun c => p c = true) a ->
  match b with c :: _ => p c = false | [] => True end ->
  take_while p (a ++ b) = a /\ drop_while p (a ++ b) = b.
Proof.
  intros Ha Hb. induction Ha as [|c a Hc Ha IH]; simpl.
  - destruct b as [|d b]; simpl; [auto|]. rewrite Hb. auto.
  - rewrite Hc. destruct IH as [IH1 IH2]. rewrite IH1, IH2. auto.
Qed.

Lemma take_while_drop_while (p : ascii -> bool) (s : jsstring) :
  take_while p (drop_while p s) = [].
Proof.
  pose proof (drop_while_head p s) as H.
  destruct (drop_while p s) as [|c r]; simpl; [reflexivity|].
  rewrite H. reflexivity.
Qed.

Lemma drop_while_length (p : ascii -> bool) (s : jsstring) :
  (length (drop_while p s) <= length s)%nat.
Proof.
  induction s as [|c s IH]; simpl; [lia|].
  destruct (p c); simpl; lia.
Qed.

(** When no terminator follows the run at the head of [s], none occurs in
    [s]. *)
Lemma run_reaches_end (s : jsstring) :
  take_while is_terminator (drop_while not_terminator s) = [] ->
  Forall (fun c => is_terminator c = false) s.
Proof.
  intros Et.
  assert (Hrest : drop_while not_terminator s = []).
  { pose proof (drop_while_head not_terminator s) as Hh.
    destruct (drop_while not_terminator s) as [|d rest]; [reflexivity|].
    apply not_terminator_false in Hh. simpl in Et. rewrite Hh in Et.
    discriminate. }
  apply Forall_not_terminator.
  rewrite <- (take_drop_while not_terminator s), Hrest, app_nil_r.
  apply take_while_all.
Qed.

(** The matches of the pattern, with the terminators before the first and
    the open run behind the last, make up the text. *)
Lemma match_loop_sentence_parts (n : nat) (s : jsstring) :
  (length s <= n)%nat ->
  exists post,
    s = take_while is_terminator s
          ++ concat (match_loop re_sentence None s 0) ++ post
    /\ Forall terminated_run (match_loop re_sentence None s 0)
    /\ Forall (fun c => is_terminator c = false) post.
Proof.
  revert s. induction n as [|n IH]; intros s Hlen.
  - destruct s; [|simpl in Hlen; lia].
    exists []. repeat split; constructor.
  - destruct s as [|c s]; [exists []; repeat split; constructor|].
    simpl in Hlen. rewrite match_loop_sentence_step.
    destruct (is_terminator c) eqn:Ec.
    + destruct (IH s) as (post & Hs & Hl & Hp); [lia|].
      exists post. simpl take_while. rewrite Ec.
      repeat split; try assumption.
      simpl. rewrite <- Hs. reflexivity.
    + assert (En : not_terminator c = true)
        by (apply not_terminator_true; exact Ec).
      replace (take_while is_terminator (c :: s)) with (@nil ascii)
        by (simpl; rewrite Ec; reflexivity).
      cbv zeta.
      destruct (take_while is_terminator (drop_while not_terminator (c :: s)))
        as [|t terms] eqn:Et.
      * exists (c :: s). repeat split; [constructor|].
        apply run_reaches_end. exact Et.
      * set (rest := drop_while not_terminator (c :: s)) in *.
        set (rest' := drop_while is_terminator rest).
        destruct (IH rest') as (post & Hs & Hl & Hp).
        { unfold rest'. pose proof (drop_while_length is_terminator rest).
          unfold rest in *. simpl drop_while in *. rewrite En in *.
          pose proof (drop_while_length not_terminator s). lia. }
        unfold rest' in Hs at 2. rewrite take_while_drop_while in Hs.
        simpl app in Hs.
        exists post. repeat split; try assumption.
        -- rewrite concat_cons, app_nil_l, <- !app_assoc, <- Hs.
           unfold rest'. rewrite <- Et. rewrite take_drop_while.
           unfold rest. rewrite take_drop_while. reflexivity.
        -- constructor; [|assumption].
           exists (take_while not_terminator (c :: s)), (t :: terms).
           repeat split.
           ++ simpl. rewrite En. discriminate.
           ++ discriminate.
           ++ apply Forall_not_terminator. apply take_while_all.
           ++ rewrite <- Et. apply take_while_all.
Qed.

Lemma terminated_runs_head (l : list jsstring) (post : jsstring) :
  Forall terminated_run l ->
  Forall (fun c => is_terminator c = false) post ->
  match concat l ++ post with
  | c :: _ => is_terminator c = false
  | [] => True
  end.
Proof.
  intros Hl Hp. destruct l as [|x l].
  - simpl. destruct Hp; [exact I | assumption].
  - inversion Hl as [|? ? Hx _]; subst.
    destruct Hx as (run & terms & -> & Hrun & _ & Hn & _).
    destruct run as [|r run]; [contradiction|].
    inversion Hn; subst. simpl. assumption.
Qed.

(** A text has one segmentation only: the one the pattern finds. *)
Lemma segmentation_unique (text : jsstring) (l : list jsstring) :
  segmentation text l -> l = match_loop re_sentence None text 0.
Proof.
  intros (pre & post & -> & Hpre & Hl & Hpost).
  induction Hpre as [|c pre Hc Hpre IH].
  - simpl app. clear -Hl Hpost.
    induction Hl as [|x l Hx Hl IH].
    + simpl. symmetry. apply match_loop_sentence_open. exact Hpost.
    + destruct Hx as (run & terms & -> & Hrun & Hterms & Hn & Ht).
      destruct run as [|r run]; [contradiction|].
      assert (Hr : is_terminator r = false) by (inversion Hn; assumption).
      rewrite concat_cons, <- !app_assoc.
      change ((r :: run) ++ terms ++ concat l ++ post)
        with (r :: (run ++ terms ++ concat l ++ post)).
      rewrite match_loop_sentence_step. rewrite Hr. cbv zeta.
      change (r :: (run ++ terms ++ concat l ++ post))
        with ((r :: run) ++ (terms ++ concat l ++ post)).
      destruct (take_while_app_stop not_terminator (r :: run)
                  (terms ++ concat l ++ post)) as [E1 E2].
      { apply Forall_not_terminator. exact Hn. }
      { destruct terms as [|t terms]; [contradiction|].
        inversion Ht; subst. simpl. apply not_terminator_false. assumption. }
      rewrite E1, E2.
      destruct (take_while_app_stop is_terminator terms (concat l ++ post))
        as [E3 E4].
      { exact Ht. }
      { apply terminated_runs_head; assumption. }
      rewrite E3, E4.
      destruct terms as [|t terms]; [contradiction|].
      rewrite <- IH. reflexivity.
  - simpl app. rewrite match_loop_sentence_step, Hc. exact IH.
Qed.

Lemma segmentation_exists (text : jsstring) :
  segmentation text (match_loop re_sentence None text 0).
Proof.
  destruct (match_loop_sentence_parts (length text) text (le_n _))
    as (post & Hs & Hl & Hp).
  exists (take_while is_terminator text), post.
  repeat split; try assumption. apply take_while_all.
Qed.

Lemma has_terminator_false (text : jsstring) :
  has_terminator text = false <->
  Forall (fun c => is_terminator c = false) text.
Proof.
  unfold has_terminator. induction text as [|c s IH]; simpl.
  - split; [constructor | reflexivity].
  - rewrite orb_false_iff, IH. split.
    + intros [H1 H2]. constructor; assumption.
    + intros H. inversion H; auto.
Qed.

Lemma sentences_of_cases (text : jsstring) :
  sentences_of text
  = match match_loop re_sentence None text 0 with
    | [] => [text]
    | l => l
    end.
Proof.
  unfold sentences_of, String_match.
  destruct (match_loop re_sentence None text 0); reflexivity.
Qed.

Lemma sentences_of_nonempty (text : jsstring) : sentences_of text <> [].
Proof.
  rewrite sentences_of_cases.
  destruct (match_loop re_sentence None text 0); discriminate.
Qed.

(* ================================================================== *)
(** ** The words of a text *)

Lemma jsstring_eqb_eq (a b : jsstring) : jsstring_eqb a b = true <-> a = b.
Proof.
  revert b. induction a as [|x a IH]; intros [|y b]; simpl;
    try (split; [discriminate | discriminate]); [tauto|].
  rewrite andb_true_iff, Ascii.eqb_eq, IH.
  split; [intros [-> ->]; reflexivity | intros H; inversion H; auto].
Qed.

Lemma includes_In (a : list jsstring) (w : jsstring) :
  includes a w = true <-> In w a.
Proof.
  unfold includes. rewrite existsb_exists. split.
  - intros (x & Hx & E). apply jsstring_eqb_eq in E. subst. exact Hx.
  - intros H. exists w. split; [exact H | apply jsstring_eqb_eq; reflexivity].
Qed.

Lemma hd_error_rev_snoc (before : jsstring) (c : ascii) :
  hd_error (rev (before ++ [c])) = Some c.
Proof. rewrite rev_app_distr. reflexivity. Qed.

(** Every match of [/\b\w+\b/g] is a maximal run of word characters. *)
Lemma match_loop_word_run (s before : jsstring) (k : nat) (w : jsstring) :
  In w (match_loop re_word (hd_error (rev before)) s k) ->
  word_run (before ++ s) w.
Proof.
  revert before k. induction s as [|c s IH]; intros before k Hin.
  - destruct k; simpl in Hin.
    + destruct (xorb _ _) in Hin; contradiction.
    + contradiction.
  - assert (Hnext : forall k', In w (match_loop re_word (Some c) s k') ->
                               word_run (before ++ c :: s) w).
    { intros k' H. rewrite <- hd_error_rev_snoc with (before := before) in H.
      apply IH in H. rewrite <- app_assoc in H. exact H. }
    destruct k as [|k]; [|rewrite match_loop_cons_skip in Hin; eauto].
    rewrite match_loop_cons, exec_at_word in Hin.
    destruct (is_word_at (hd_error (rev before))) eqn:Eprev; [eauto|].
    destruct (take_while is_word (c :: s)) as [|x run] eqn:Erun; [eauto|].
    destruct Hin as [Hw | Hin]; [|eauto].
    subst w. rewrite <- Erun, firstn_take_while.
    exists before, (drop_while is_word (c :: s)).
    repeat split.
    + rewrite take_drop_while. reflexivity.
    + rewrite Erun. discriminate.
    + apply take_while_all.
    + exact Eprev.
    + pose proof (drop_while_head is_word (c :: s)) as Hh.
      destruct (drop_while is_word (c :: s)); [reflexivity | exact Hh].
Qed.

Lemma words_of_word_run (cleanText w : jsstring) :
  In w (words_of cleanText) -> word_run cleanText w.
Proof.
  unfold words_of, String_match. intros Hin.
  apply (match_loop_word_run cleanText [] 0 w).
  simpl rev. simpl hd_error.
  destruct (match_loop re_word None cleanText 0); [contradiction | exact Hin].
Qed.

Lemma word_run_forallb (text w : jsstring) :
  word_run text w -> forallb is_word w = true.
Proof.
  intros (b & a & _ & _ & Hw & _). apply forallb_forall.
  rewrite Forall_forall in Hw. exact Hw.
Qed.

(** A word is in the list of eighteen exactly when it is among the
    sixteen single-word entries. *)
Lemma includes_aiMarkers16 (w : jsstring) :
  forallb is_word w = true ->
  includes aiMarkers w = includes aiMarkers16 w.
Proof.
  intros Hw.
  assert (Hnot : forall p, In p phrase_markers -> w <> p).
  { intros p Hp ->. revert Hw.
    destruct Hp as [<- | [<- | []]]; vm_compute; discriminate. }
  apply eq_true_iff_eq. rewrite !includes_In.
  unfold aiMarkers, aiMarkers16. simpl map. simpl In.
  pose proof (Hnot (str "proven track record")) as H1.
  pose proof (Hnot (str "results-driven")) as H2.
  simpl in H1, H2. intuition congruence.
Qed.

(* ================================================================== *)
(** ** Numbers: the clamp, the jitter, the two roundings *)

Lemma clamp_max_min (x lo hi : R) :
  lo <= hi -> Math_max lo (Math_min hi x) = clamp x lo hi.
Proof.
  intros H. unfold clamp, Math_max, Math_min, Rmax, Rmin.
  destruct (Rlt_dec x lo); destruct (Rlt_dec hi x);
    destruct (Rle_dec hi x); destruct (Rle_dec lo _); lra.
Qed.

Lemma unit_draws_jitter (g : RandomSource) :
  unit_draws g -> -5 <= next_draw g * 10 - 5 < 5.
Proof. intros H. unfold next_draw. specialize (H (cursor g)). lra. Qed.

(** The two roundings add up to 100 or to 101, and to 101 exactly when the
    score lies half-way between two integers. *)
Lemma round_complement (x : R) :
  ((Math_round x + Math_round (100 - x) = 100)%Z
   \/ (Math_round x + Math_round (100 - x) = 101)%Z)
  /\ ((Math_round x + Math_round (100 - x) = 101)%Z
      <-> x = IZR (Math_round x) - 1 / 2).
Proof.
  destruct (Math_round_spec x) as [Xlo Xhi].
  destruct (Math_round_spec (100 - x)) as [Ylo Yhi].
  set (n := Math_round x) in *. set (m := Math_round (100 - x)) in *.
  assert (H1 : (99 < n + m)%Z).
  { apply lt_IZR. rewrite plus_IZR. lra. }
  assert (H2 : (n + m < 102)%Z).
  { apply lt_IZR. rewrite plus_IZR. lra. }
  split; [lia|].
  split.
  - intros H. assert (Hm : IZR m = 101 - IZR n).
    { rewrite <- (minus_IZR 101 n). f_equal. lia. }
    lra.
  - intros H. assert (Hm : (100 < n + m)%Z).
    { apply lt_IZR. rewrite plus_IZR. lra. }
    lia.
Qed.

(* ================================================================== *)
(** ** The flags *)

Lemma dynamic_flags_spec (sd : R) (mc : nat) (t : R) :
  let fl := dynamic_flags sd mc t in
  let none := ~ sd < 6 /\ ~ (2 < mc)%nat /\ ~ t < 0.4 in
  fl = (if Rltb sd 6 then [flag_monotonic] else [])
         ++ (if (2 <? mc)%nat then [flag_buzzwords mc] else [])
         ++ (if Rltb t 0.4 then [flag_repetitive] else [])
         ++ (if negb (Rltb sd 6) && negb (2 <? mc)%nat && negb (Rltb t 0.4)
             then [flag_none] else [])
  /\ (In flag_monotonic fl <-> sd < 6)
  /\ (In (flag_buzzwords mc) fl <-> (2 < mc)%nat)
  /\ (In flag_repetitive fl <-> t < 0.4)
  /\ (In flag_none fl <-> none)
  /\ (fl = [flag_none] <-> none)
  /\ fl <> [].
Proof.
  cbv zeta. unfold dynamic_flags.
  destruct (Rltb sd 6) eqn:E1; destruct (2 <? mc)%nat eqn:E2;
    destruct (Rltb t 0.4) eqn:E3;
    cbn [app length Nat.eqb negb andb];
    first [apply Rltb_true in E1 | apply Rltb_false in E1];
    first [apply Nat.ltb_lt in E2 | apply Nat.ltb_ge in E2];
    first [apply Rltb_true in E3 | apply Rltb_false in E3];
    (split; [reflexivity|]);
    unfold flag_monotonic, flag_buzzwords, flag_repetitive, flag_none;
    cbn [In String.append];
    repeat split; intros;
    repeat match goal with
           | H : _ \/ _ |- _ => destruct H
           | H : _ /\ _ |- _ => destruct H
           | H : False |- _ => contradiction
           end;
    try discriminate; try lra; try lia; auto.
Qed.

(* ================================================================== *)
(** ** Texts whose sentences all have the same length *)

Lemma sum_repeat (k m : nat) (acc : R) :
  fold_left (fun a b => a + INR b) (repeat k m) acc = acc + INR m * INR k.
Proof.
  revert acc. induction m as [|m IH]; intros acc.
  - simpl. lra.
  - change (repeat k (S m)) with (k :: repeat k m).
    simpl fold_left. rewrite IH, S_INR. lra.
Qed.

Lemma squares_repeat (k m : nat) (acc : R) :
  fold_left (fun a b => a + Math_pow2 (INR b - INR k)) (repeat k m) acc = acc.
Proof.
  revert acc. induction m as [|m IH]; intros acc.
  - reflexivity.
  - change (repeat k (S m)) with (k :: repeat k m).
    simpl fold_left. rewrite IH. unfold Math_pow2. simpl. lra.
Qed.

Lemma clamp_inside (x : R) :
  5 <= x <= 98 -> Math_max 5 (Math_min 98 x) = x.
Proof.
  intros H. unfold Math_max, Math_min, Rmax, Rmin.
  destruct (Rle_dec 98 x); destruct (Rle_dec 5 _); lra.
Qed.

Lemma clamp_above (x : R) :
  98 <= x -> Math_max 5 (Math_min 98 x) = 98.
Proof.
  intros H. unfold Math_max, Math_min, Rmax, Rmin.
  destruct (Rle_dec 98 x); destruct (Rle_dec 5 _); lra.
Qed.

(** A call on a text with [n + 1] sentences of [k] words each: the mean
    is [k], variance and standard deviation are zero. *)
Lemma uniform_text_run (text : jsstring) (g : RandomSource) (k n : nat) :
  map sentence_length (sentences_of text) = repeat k (S n) ->
  exists r,
    analyze text g = Some (r, advance (advance g))
    /\ describes text g r
    /\ avgLen r = INR k /\ variance r = 0 /\ stdDev r = 0.
Proof.
  intros Hsl.
  destruct (analyze_run text g) as (r & Hr & Hd).
  exists r. split; [exact Hr|]. split; [exact Hd|].
  unfold describes in Hd. cbv zeta in Hd.
  destruct Hd as (Hs & _ & Hl & Havg & Hvar & _ & Hsd & _).
  rewrite Hs, Hsl in Hl.
  assert (Hn : INR (or_one (length (sentenceLengths r))) = INR (S n)).
  { rewrite Hl, repeat_length. reflexivity. }
  assert (Hpos : INR (S n) <> 0) by (apply not_0_INR; lia).
  assert (Ha : avgLen r = INR k).
  { rewrite Havg, Hn, Hl, sum_repeat. field. exact Hpos. }
  assert (Hv : variance r = 0).
  { rewrite Hvar, Hn, Ha, Hl, squares_repeat. field. exact Hpos. }
  split; [exact Ha|]. split; [exact Hv|].
  rewrite Hsd, Hv. apply sqrt_0.
Qed.

Lemma source_unit_draws (a b : R) :
  0 <= a < 1 -> 0 <= b < 1 -> unit_draws (source a b).
Proof. intros Ha Hb n. destruct n; simpl; assumption. Qed.

(** ** The text "a b." *)

Lemma text_ab_features :
  map sentence_length (sentences_of text_ab) = repeat 2%nat 1
  /\ length (words_of (toLowerCase text_ab)) = 2%nat
  /\ length (nodup jsstring_dec (words_of (toLowerCase text_ab))) = 2%nat
  /\ length (filter (fun w => includes aiMarkers w)
               (words_of (toLowerCase text_ab))) = 0%nat.
Proof. vm_compute. auto. Qed.

(** One sentence of two distinct words, none of them a buzzword: the
    score is [54 + 10 * draw], inside the clamp. *)
Lemma text_ab_run (g : RandomSource) :
  unit_draws g ->
  exists r,
    analyze text_ab g = Some (r, advance (advance g))
    /\ describes text_ab g r
    /\ aiScore r = 54 + next_draw g * 10
    /\ humanScore r = 46 - next_draw g * 10.
Proof.
  intros Hg.
  destruct text_ab_features as (Hsl & Hw & Hu & Hm).
  destruct (uniform_text_run text_ab g 2 0 Hsl) as (r & Hr & Hd & _ & _ & Hsd).
  exists r. split; [exact Hr|]. split; [exact Hd|].
  unfold describes in Hd. cbv zeta in Hd.
  destruct Hd as (_ & Hwords & _ & _ & _ & _ & _ & Huniq & Httr & Hmc & Hmd
                  & Hj & Hai & Hh & _).
  rewrite Huniq, Hwords, Hw, Hu in Httr. simpl in Httr.
  rewrite Hmc, Hwords, Hw, Hm in Hmd. simpl in Hmd.
  pose proof (unit_draws_jitter g Hg) as Hjr.
  assert (Hscore : aiScore r = 54 + next_draw g * 10).
  { rewrite Hai, Hsd, Httr, Hmd, Hj. rewrite clamp_inside; lra. }
  split; [exact Hscore|]. rewrite Hh, Hscore. lra.
Qed.

(* ================================================================== *)
(** ** Calls whose draws agree *)

Ltac project_run :=
  cbn [sentences words sentenceLengths avgLen variance stdDev uniqueWords
       ttr markerCount markerDensity jitter aiScore humanScore result
       isAiGenerated aiProbability humanProbability verdictHeadline summary
       linguisticAnalysis flags suggestions perplexityScore burstinessScore
       vocabularyRichness sentenceVariety] in *.

(** Two calls on one text whose first draws agree differ at most in
    [perplexityScore]; when their second draws agree too, in nothing. *)
Lemma describes_same_draws (text : jsstring) (g1 g2 : RandomSource)
  (r1 r2 : Run) :
  describes text g1 r1 -> describes text g2 r2 ->
  next_draw g1 = next_draw g2 ->
  without_perplexity (result r1) = without_perplexity (result r2)
  /\ (next_draw (advance g1) = next_draw (advance g2) -> r1 = r2).
Proof.
  intros H1 H2 Hd1.
  destruct r1 as [s1 w1 sl1 av1 va1 sd1 uw1 tt1 mc1 md1 ji1 ai1 hu1
                  [ia1 ap1 hp1 vh1 su1 [pp1 bu1 vr1 sv1] fl1 sg1]].
  destruct r2 as [s2 w2 sl2 av2 va2 sd2 uw2 tt2 mc2 md2 ji2 ai2 hu2
                  [ia2 ap2 hp2 vh2 su2 [pp2 bu2 vr2 sv2] fl2 sg2]].
  unfold describes in H1, H2. cbv zeta in H1, H2. project_run.
  destruct H1 as (? & ? & ? & ? & ? & _ & ? & ? & ? & ? & ? & ? & ? & ?
                  & ? & ? & ? & ? & ? & Hp1 & ? & ? & ? & ? & ?).
  destruct H2 as (? & ? & ? & ? & ? & _ & ? & ? & ? & ? & ? & ? & ? & ?
                  & ? & ? & ? & ? & ? & Hp2 & ? & ? & ? & ? & ?).
  rewrite <- Hd1 in *.
  subst s1 s2. subst w1 w2. subst sl1 sl2. subst av1 av2. subst va1 va2.
  subst sd1 sd2. subst uw1 uw2. subst tt1 tt2. subst mc1 mc2.
  subst md1 md2. subst ji1 ji2. subst ai1 ai2. subst hu1 hu2.
  subst ia1 ia2. subst ap1 ap2 hp1 hp2 vh1 vh2 su1 su2.
  subst bu1 bu2 vr1 vr2 sv1 sv2 fl1 fl2 sg1 sg2.
  split.
  - reflexivity.
  - intros Hd2. rewrite <- Hd2 in Hp2. subst pp1 pp2. reflexivity.
Qed.

(* ================================================================== *)
(** ** The example texts *)

Lemma text_dots_sentences : sentences_of text_dots = [text_dots].
Proof. vm_compute. reflexivity. Qed.

Lemma leveraged18_text :
  leveraged18
  = str "leveraged.leveraged.leveraged.leveraged.leveraged.leveraged.leveraged.leveraged.leveraged.leveraged.leveraged.leveraged.leveraged.leveraged.leveraged.leveraged.leveraged.leveraged.".
Proof. reflexivity. Qed.

Lemma leveraged18_features :
  sentences_of leveraged18 = repeat (str "leveraged.") 18
  /\ map sentence_length (sentences_of leveraged18) = repeat 1%nat 18
  /\ words_of (toLowerCase leveraged18) = repeat (str "leveraged") 18
  /\ nodup jsstring_dec (words_of (toLowerCase leveraged18))
     = [str "leveraged"]
  /\ length (filter (fun w => includes aiMarkers w)
               (words_of (toLowerCase leveraged18))) = 18%nat.
Proof. vm_compute. auto. Qed.

Lemma flag_buzzwords_18 :
  flag_buzzwords 18 = "High density of buzzwords (18 found)"%string.
Proof. reflexivity. Qed.



(* ================================================================== *)
(** ** The computation in double precision *)

Lemma small_double (k : Z) :
  (Z.abs k <= 4096)%Z -> (Z.abs k <= 2 ^ 52)%Z /\ (Z.abs k <= 2 ^ 53)%Z.
Proof.
  intros H.
  change (2 ^ 52)%Z with 4503599627370496%Z.
  change (2 ^ 53)%Z with 9007199254740992%Z. lia.
Qed.

Lemma rounding_mono (rnd : R -> R) (x y : R) :
  rounding rnd -> x <= y -> rnd x <= rnd y.
Proof. intros [H _]. apply H. Qed.

Lemma rounding_half (rnd : R -> R) (k : Z) :
  rounding rnd -> (Z.abs k <= 2 ^ 53)%Z -> rnd (IZR k / 2) = IZR k / 2.
Proof. intros [_ H]. apply H. Qed.

Lemma rounding_int (rnd : R -> R) (k : Z) :
  rounding rnd -> (Z.abs k <= 2 ^ 52)%Z -> rnd (IZR k) = IZR k.
Proof.
  intros Hr Hk.
  replace (IZR k) with (IZR (2 * k) / 2) by (rewrite mult_IZR; lra).
  apply rounding_half; [exact Hr|].
  change (2 ^ 53)%Z with (2 * 2 ^ 52)%Z. lia.
Qed.

(** A result between two numbers that a double holds stays between them
    when it is rounded. *)
Lemma rounding_between (rnd : R -> R) (a b : Z) (x : R) :
  rounding rnd ->
  (Z.abs a <= 2 ^ 53)%Z -> (Z.abs b <= 2 ^ 53)%Z ->
  IZR a / 2 <= x <= IZR b / 2 ->
  IZR a / 2 <= rnd x <= IZR b / 2.
Proof.
  intros Hr Ha Hb [Hlo Hhi]. split.
  - rewrite <- (rounding_half rnd a Hr Ha). apply rounding_mono; assumption.
  - rewrite <- (rounding_half rnd b Hr Hb). apply rounding_mono; assumption.
Qed.

Lemma rounding_between_int (rnd : R -> R) (a b : Z) (x : R) :
  rounding rnd ->
  (Z.abs a <= 2 ^ 52)%Z -> (Z.abs b <= 2 ^ 52)%Z ->
  IZR a <= x <= IZR b ->
  IZR a <= rnd x <= IZR b.
Proof.
  intros Hr Ha Hb [Hlo Hhi]. split.
  - rewrite <- (rounding_int rnd a Hr Ha). apply rounding_mono; assumption.
  - rewrite <- (rounding_int rnd b Hr Hb). apply rounding_mono; assumption.
Qed.

Lemma rounding_nonneg (rnd : R -> R) (x : R) :
  rounding rnd -> 0 <= x -> 0 <= rnd x.
Proof.
  intros Hr Hx. rewrite <- (rounding_int rnd 0 Hr) by (simpl; lia).
  apply rounding_mono; assumption.
Qed.

Lemma exact_rounding : rounding exact.
Proof. split; intros; unfold exact; [assumption | reflexivity]. Qed.

Lemma square_squaring : squaring square.
Proof. intros x. unfold square. apply pow2_ge_0. Qed.

Lemma divide64_inv (rnd : R -> R) (a b x : R) (g g' : RandomSource) :
  divide64 rnd a b g = Some (x, g') -> b <> 0 /\ x = rnd (a / b) /\ g' = g.
Proof.
  unfold divide64, not_finite, ret. destruct (Req_dec_T b 0); [discriminate|].
  intros H. inversion H. auto.
Qed.

Lemma divide64_ok (rnd : R -> R) (a b : R) (g : RandomSource) :
  b <> 0 -> divide64 rnd a b g = Some (rnd (a / b), g).
Proof.
  intros H. unfold divide64, ret.
  destruct (Req_dec_T b 0); [contradiction | reflexivity].
Qed.

Lemma Math_sqrt64_inv (rnd : R -> R) (a x : R) (g g' : RandomSource) :
  Math_sqrt64 rnd a g = Some (x, g') ->
  0 <= a /\ x = rnd (sqrt a) /\ g' = g.
Proof.
  unfold Math_sqrt64, not_finite, ret. destruct (Rlt_dec a 0); [discriminate|].
  intros H. inversion H. repeat split; lra.
Qed.

Lemma Math_sqrt64_ok (rnd : R -> R) (a : R) (g : RandomSource) :
  0 <= a -> Math_sqrt64 rnd a g = Some (rnd (sqrt a), g).
Proof.
  intros H. unfold Math_sqrt64, ret.
  destruct (Rlt_dec a 0); [lra | reflexivity].
Qed.

Lemma sum_squares64_nonneg (rnd pow2 : R -> R) (m : R) (l : list nat)
  (acc : R) :
  rounding rnd -> squaring pow2 -> 0 <= acc ->
  0 <= fold_left (fun a b => add64 rnd a (pow2 (sub64 rnd (INR b) m))) l acc.
Proof.
  intros Hr Hp. revert acc. induction l as [|b l IH]; intros acc Hacc.
  - exact Hacc.
  - cbn [fold_left]. apply IH. unfold add64.
    apply rounding_nonneg; [exact Hr|].
    pose proof (Hp (sub64 rnd (INR b) m)). lra.
Qed.

Ltac run_step64 H :=
  match type of H with
  | match divide64 ?rnd ?a ?b ?g with _ => _ end = _ =>
      let x := fresh "x" in let g' := fresh "g" in let E := fresh "E" in
      destruct (divide64 rnd a b g) as [[x g']|] eqn:E; [|discriminate H];
      apply divide64_inv in E; destruct E as (? & ? & ?); subst x g'
  | match Math_sqrt64 ?rnd ?a ?g with _ => _ end = _ =>
      let x := fresh "x" in let g' := fresh "g" in let E := fresh "E" in
      destruct (Math_sqrt64 rnd a g) as [[x g']|] eqn:E; [|discriminate H];
      apply Math_sqrt64_inv in E; destruct E as (? & ? & ?); subst x g'
  end.

Ltac project_run64 :=
  cbn [sentences words sentenceLengths avgLen variance stdDev uniqueWords
       ttr markerCount markerDensity jitter aiScore humanScore result
       isAiGenerated aiProbability humanProbability verdictHeadline summary
       linguisticAnalysis flags suggestions perplexityScore burstinessScore
       vocabularyRichness sentenceVariety].

Lemma analyze64_inv (rnd pow2 : R -> R) (text : jsstring)
  (g g' : RandomSource) (r : Run) :
  analyze64 rnd pow2 text g = Some (r, g') ->
  text_features64 rnd pow2 text r
  /\ scoring64 rnd g r
  /\ g' = advance (advance g).
Proof.
  unfold analyze64, bind. intros H.
  do 3 run_step64 H.
  destruct (0 <? length (words_of (toLowerCase text)))%nat eqn:Ew.
  - do 2 run_step64 H.
    unfold Math_random, ret in H. inversion H; subst r g'; clear H.
    unfold text_features64, scoring64, base_score64; cbv zeta; project_run64.
    rewrite Ew. repeat split; auto.
  - unfold Math_random, ret in H. inversion H; subst r g'; clear H.
    unfold text_features64, scoring64, base_score64; cbv zeta; project_run64.
    rewrite Ew. repeat split; auto.
Qed.

(** Every call returns, having read two draws. *)
Lemma analyze64_total (rnd pow2 : R -> R) (text : jsstring)
  (g : RandomSource) :
  rounding rnd -> squaring pow2 ->
  exists r, analyze64 rnd pow2 text g = Some (r, advance (advance g)).
Proof.
  intros Hr Hp. unfold analyze64, bind.
  rewrite divide64_ok by apply or_one_pos.
  rewrite divide64_ok by apply or_one_pos.
  rewrite Math_sqrt64_ok.
  2:{ apply rounding_nonneg; [exact Hr|]. apply Rmult_le_pos.
      - apply sum_squares64_nonneg; [assumption | assumption | lra].
      - left. apply Rinv_0_lt_compat, or_one_gt0. }
  destruct (0 <? length (words_of (toLowerCase text)))%nat eqn:Ew.
  - apply Nat.ltb_lt in Ew.
    assert (Hw : INR (length (words_of (toLowerCase text))) <> 0).
    { apply not_0_INR. lia. }
    rewrite !divide64_ok by exact Hw.
    unfold Math_random, ret. eexists. reflexivity.
  - unfold Math_random, ret. eexists. reflexivity.
Qed.

Lemma analyze64_run (rnd pow2 : R -> R) (text : jsstring) (g : RandomSource) :
  rounding rnd -> squaring pow2 ->
  exists r,
    analyze64 rnd pow2 text g = Some (r, advance (advance g))
    /\ text_features64 rnd pow2 text r
    /\ scoring64 rnd g r.
Proof.
  intros Hr Hp.
  destruct (analyze64_total rnd pow2 text g Hr Hp) as [r Hrun].
  exists r. split; [exact Hrun|].
  destruct (analyze64_inv _ _ _ _ _ _ Hrun) as (Hf & Hs & _).
  split; assumption.
Qed.

Lemma analyzeResume64_run (rnd pow2 : R -> R) (text : jsstring)
  (g : RandomSource) (r : Run) :
  analyze64 rnd pow2 text g = Some (r, advance (advance g)) ->
  analyzeResume64 rnd pow2 text g = Some (result r, advance (advance g)).
Proof.
  intros H. unfold analyzeResume64, bind. rewrite H. reflexivity.
Qed.

(** Without rounding error the computation is the one in real numbers. *)
Lemma analyze64_exact (text : jsstring) (g : RandomSource) :
  analyze64 exact square text g = analyze text g.
Proof. reflexivity. Qed.

(** The jitter lies in [-5, 5]. *)
Lemma jitter64_range (rnd : R -> R) (d : R) :
  rounding rnd -> 0 <= d < 1 ->
  -5 <= sub64 rnd (mul64 rnd d 10) 5 <= 5.
Proof.
  intros Hr Hd. unfold sub64, mul64.
  assert (H10 : 0 <= rnd (d * 10) <= 10).
  { apply (rounding_between_int rnd 0 10);
      [exact Hr | simpl; lia | simpl; lia | lra]. }
  apply (rounding_between_int rnd (-5) 5);
    [exact Hr | simpl; lia | simpl; lia | lra].
Qed.


(* ================================================================== *)
(** * The claims *)

(** ** C1: the score *)

(** C1.  On every text, in double precision and with draws in [0, 1), the
    score is [50 + (12 - stdDev) * 3 + (0.55 - ttr) * 60 +
    markerDensity * 800 + j], evaluated from left to right with the
    arithmetic of the language, then clamped to [5, 98]; [j] is the first
    draw times 10 minus 5 and lies in [-5, 5]; [stdDev], [ttr] and
    [markerDensity] are the features the code computes from the same
    text. *)
Theorem C1_score_formula (rnd pow2 : R -> R) (text : jsstring)
  (g : RandomSource) :
  rounding rnd -> squaring pow2 -> unit_draws g ->
  exists r,
    analyze64 rnd pow2 text g = Some (r, advance (advance g))
    /\ text_features64 rnd pow2 text r
    /\ jitter r = sub64 rnd (mul64 rnd (next_draw g) 10) 5
    /\ -5 <= jitter r <= 5
    /\ aiScore r
       = clamp
           (add64 rnd
              (add64 rnd
                 (add64 rnd
                    (add64 rnd 50 (mul64 rnd (sub64 rnd 12 (stdDev r)) 3))
                    (mul64 rnd (sub64 rnd (literal64 rnd 0.55) (ttr r)) 60))
                 (mul64 rnd (markerDensity r) 800))
              (jitter r))
           5 98
    /\ 5 <= aiScore r <= 98.
Proof.
  intros Hr Hp Hg.
  destruct (analyze64_run rnd pow2 text g Hr Hp) as (r & Hrun & Hf & Hs).
  exists r. split; [exact Hrun|]. split; [exact Hf|].
  unfold scoring64 in Hs. cbv zeta in Hs.
  destruct Hs as (_ & Hj & Hai & _).
  split; [exact Hj|].
  split.
  { rewrite Hj. apply jitter64_range; [exact Hr | apply Hg]. }
  split.
  - rewrite Hai. unfold base_score64. apply clamp_max_min. lra.
  - rewrite Hai. apply clamp_bounds. lra.
Qed.

(** C1 on "a b." with a first draw of 0.45, without rounding error. *)
Lemma C1_score_formula_witness :
  rounding exact /\ squaring square /\ unit_draws (source 0.45 0)
  /\ exists r,
       analyze64 exact square text_ab (source 0.45 0)
         = Some (r, advance (advance (source 0.45 0)))
       /\ text_features64 exact square text_ab r
       /\ jitter r
          = sub64 exact (mul64 exact (next_draw (source 0.45 0)) 10) 5
       /\ -5 <= jitter r <= 5
       /\ aiScore r
          = clamp
              (add64 exact
                 (add64 exact
                    (add64 exact
                       (add64 exact 50
                          (mul64 exact (sub64 exact 12 (stdDev r)) 3))
                       (mul64 exact
                          (sub64 exact (literal64 exact 0.55) (ttr r)) 60))
                    (mul64 exact (markerDensity r) 800))
                 (jitter r))
              5 98
       /\ 5 <= aiScore r <= 98.
Proof.
  assert (Hg : unit_draws (source 0.45 0)) by (apply source_unit_draws; lra).
  split; [exact exact_rounding|]. split; [exact square_squaring|].
  split; [exact Hg|].
  apply (C1_score_formula exact square text_ab (source 0.45 0)).
  - exact exact_rounding.
  - exact square_squaring.
  - exact Hg.
Defined.

(** ** C2: the two percentages *)

(** C2, at the failing input: on "a b." with a first draw of 0.45 the
    score is 58.5, and the two percentages are 59 and 42. *)
Theorem C2_sum_is_101 :
  exists r,
    analyze text_ab (source 0.45 0)
      = Some (r, advance (advance (source 0.45 0)))
    /\ analyzeResume text_ab (source 0.45 0)
       = Some (result r, advance (advance (source 0.45 0)))
    /\ aiScore r = 58.5
    /\ aiProbability (result r) = 59%Z
    /\ humanProbability (result r) = 42%Z
    /\ (aiProbability (result r) + humanProbability (result r) = 101)%Z.
Proof.
  assert (Hg : unit_draws (source 0.45 0))
    by (apply source_unit_draws; lra).
  destruct (text_ab_run (source 0.45 0) Hg) as (r & Hr & Hd & Hai & Hh).
  exists r. split; [exact Hr|].
  split; [apply analyzeResume_run; exact Hr|].
  unfold describes in Hd. cbv zeta in Hd.
  destruct Hd as (_ & _ & _ & _ & _ & _ & _ & _ & _ & _ & _ & _ & _ & _
                  & _ & Hap & Hhp & _).
  change (next_draw (source 0.45 0)) with 0.45 in Hai, Hh.
  assert (Ha : aiProbability (result r) = 59%Z).
  { rewrite Hap. apply Math_round_unique. rewrite Hai. lra. }
  assert (Hb : humanProbability (result r) = 42%Z).
  { rewrite Hhp. apply Math_round_unique. rewrite Hh. lra. }
  split; [rewrite Hai; lra|].
  split; [exact Ha|]. split; [exact Hb|].
  rewrite Ha, Hb. reflexivity.
Qed.

(** ** C3: the verdict *)

(** C3, as stated, fails on "a b." with a first draw of 0.13: the score
    is 55.3, the verdict is true and the rounded percentage is 55. *)
Lemma C3_counterexample_55 :
  (exists res,
     analyzeResume text_ab (source 0.13 0)
       = Some (res, advance (advance (source 0.13 0)))
     /\ isAiGenerated res = true
     /\ aiProbability res = 55%Z
     /\ isAiGenerated res <> (55 <? aiProbability res)%Z)
  /\ ~ verdict_from_rounded_percentage.
Proof.
  assert (Hg : unit_draws (source 0.13 0))
    by (apply source_unit_draws; lra).
  assert (Hex : exists res,
     analyzeResume text_ab (source 0.13 0)
       = Some (res, advance (advance (source 0.13 0)))
     /\ isAiGenerated res = true
     /\ aiProbability res = 55%Z
     /\ isAiGenerated res <> (55 <? aiProbability res)%Z).
  { destruct (text_ab_run (source 0.13 0) Hg) as (r & Hr & Hd & Hai & Hh).
    exists (result r). split; [apply analyzeResume_run; exact Hr|].
    unfold describes in Hd. cbv zeta in Hd.
    destruct Hd as (_ & _ & _ & _ & _ & _ & _ & _ & _ & _ & _ & _ & _ & _
                    & Hisai & Hap & _).
    change (next_draw (source 0.13 0)) with 0.13 in Hai.
    assert (Ha : aiProbability (result r) = 55%Z).
    { rewrite Hap. apply Math_round_unique. rewrite Hai. lra. }
    assert (Hv : isAiGenerated (result r) = true).
    { rewrite Hisai. apply Rgtb_true. rewrite Hai. lra. }
    split; [exact Hv|]. split; [exact Ha|].
    rewrite Hv, Ha. discriminate. }
  split; [exact Hex|].
  intros Hclaim. destruct Hex as (res & Hrun & _ & _ & Hne).
  apply Hne. apply (Hclaim _ _ _ _ Hg Hrun).
Qed.

(** C3, amended.  The verdict compares the score before rounding with
    55: [isAiGenerated] is true iff [aiScore > 55].  Of the rounded
    percentage it gives: above 55 the verdict is true, and a true verdict
    has a percentage of 55 or more. *)
Theorem C3_verdict (text : jsstring) (g : RandomSource) :
  exists r,
    analyze text g = Some (r, advance (advance g))
    /\ analyzeResume text g = Some (result r, advance (advance g))
    /\ aiProbability (result r) = Math_round (aiScore r)
    /\ (isAiGenerated (result r) = true <-> aiScore r > 55)
    /\ ((55 < aiProbability (result r))%Z ->
        isAiGenerated (result r) = true)
    /\ (isAiGenerated (result r) = true ->
        (55 <= aiProbability (result r))%Z).
Proof.
  destruct (analyze_run text g) as (r & Hr & Hd).
  exists r. split; [exact Hr|].
  split; [apply analyzeResume_run; exact Hr|].
  unfold describes in Hd. cbv zeta in Hd.
  destruct Hd as (_ & _ & _ & _ & _ & _ & _ & _ & _ & _ & _ & _ & _ & _
                  & Hisai & Hap & _).
  split; [exact Hap|].
  rewrite Hisai, Hap, Rgtb_true.
  destruct (Math_round_spec (aiScore r)) as [Hlo Hhi].
  split; [tauto|]. split.
  - intros H.
    assert (H' : (56 <= Math_round (aiScore r))%Z) by lia.
    apply IZR_le in H'. lra.
  - intros H.
    assert (H' : (55 < Math_round (aiScore r) + 1)%Z).
    { apply lt_IZR. rewrite plus_IZR. lra. }
    lia.
Qed.

(** ** C4: the ranges of the percentages *)

(** C4.  On every text, with both draws in [0, 1), [aiProbability] lies in
    [5, 98] and the four fields of [linguisticAnalysis] lie in [0, 100];
    [perplexityScore], the rounding of [humanScore * 0.8 + draw * 20], lies
    in [2, 96]. *)
Theorem C4_ranges (text : jsstring) (g : RandomSource) :
  unit_draws g ->
  exists res,
    analyzeResume text g = Some (res, advance (advance g))
    /\ (5 <= aiProbability res <= 98)%Z
    /\ (let la := linguisticAnalysis res in
        (0 <= perplexityScore la <= 100)%Z
        /\ (2 <= perplexityScore la <= 96)%Z
        /\ (0 <= burstinessScore la <= 100)%Z
        /\ (0 <= vocabularyRichness la <= 100)%Z
        /\ (0 <= sentenceVariety la <= 100)%Z).
Proof.
  intros Hg.
  destruct (analyze_run text g) as (r & Hr & Hd).
  exists (result r). split; [apply analyzeResume_run; exact Hr|].
  unfold describes in Hd. cbv zeta in Hd.
  destruct Hd as (_ & _ & _ & _ & _ & Hvar0 & _ & _ & _ & _ & _ & _ & Hai
                  & Hh & _ & Hap & _ & _ & _ & Hpp & Hb & Hv & Hsv & _).
  assert (Hrange : 5 <= aiScore r <= 98)
    by (rewrite Hai; apply clamp_bounds; lra).
  assert (Hd2 : 0 <= next_draw (advance g) < 1) by apply Hg.
  assert (Hperp : (2 <= perplexityScore (linguisticAnalysis (result r)) <= 96)%Z).
  { rewrite Hpp. apply Math_round_between_half. rewrite Hh. lra. }
  split; [rewrite Hap; apply Math_round_between; lra|].
  cbv zeta.
  split; [lia|].
  split; [exact Hperp|].
  split; [rewrite Hb; apply Math_round_between, min_max_bounds; lra|].
  split; [rewrite Hv; apply Math_round_between, min_max_bounds; lra|].
  rewrite Hsv. apply Math_round_between.
  unfold Math_min, Rmin. destruct (Rle_dec 100 (variance r * 2)); lra.
Qed.

(** C4 on "a b." with a first draw of 0.45. *)
Lemma C4_ranges_witness :
  unit_draws (source 0.45 0)
  /\ exists res,
       analyzeResume text_ab (source 0.45 0)
         = Some (res, advance (advance (source 0.45 0)))
       /\ (5 <= aiProbability res <= 98)%Z
       /\ (let la := linguisticAnalysis res in
           (0 <= perplexityScore la <= 100)%Z
           /\ (2 <= perplexityScore la <= 96)%Z
           /\ (0 <= burstinessScore la <= 100)%Z
           /\ (0 <= vocabularyRichness la <= 100)%Z
           /\ (0 <= sentenceVariety la <= 100)%Z).
Proof.
  assert (Hg : unit_draws (source 0.45 0)) by (apply source_unit_draws; lra).
  split.
  - exact Hg.
  - apply (C4_ranges text_ab (source 0.45 0)). exact Hg.
Defined.

(** ** C5: the empty text *)



(** ** C6: eighteen times "leveraged." *)

(** C6.  On eighteen copies of "leveraged.", whatever the draws in
    [0, 1): eighteen buzzwords among eighteen words, one distinct word (a
    type-token ratio of 1/18), a score at the ceiling 98, a true verdict,
    and the three flags, the buzzword one printing 18. *)
Theorem C6_leveraged18 (g : RandomSource) :
  unit_draws g ->
  exists r,
    analyze leveraged18 g = Some (r, advance (advance g))
    /\ analyzeResume leveraged18 g = Some (result r, advance (advance g))
    /\ length (words r) = 18%nat
    /\ length (uniqueWords r) = 1%nat
    /\ markerCount r = 18%nat
    /\ ttr r = 1 / 18
    /\ markerDensity r = 1
    /\ stdDev r = 0
    /\ aiScore r = 98
    /\ aiProbability (result r) = 98%Z
    /\ isAiGenerated (result r) = true
    /\ flags (result r)
       = [flag_monotonic; "High density of buzzwords (18 found)"%string;
          flag_repetitive]
    /\ In (flag_buzzwords 18) (flags (result r))
    /\ In flag_repetitive (flags (result r)).
Proof.
  intros Hg.
  destruct leveraged18_features as (_ & Hsl & Hw & Hu & Hm).
  destruct (uniform_text_run leveraged18 g 1 17 Hsl)
    as (r & Hr & Hd & _ & _ & Hsd).
  exists r. split; [exact Hr|].
  split; [apply analyzeResume_run; exact Hr|].
  unfold describes in Hd. cbv zeta in Hd.
  destruct Hd as (_ & Hwords & _ & _ & _ & _ & _ & Huniq & Httr & Hmc & Hmd
                  & Hj & Hai & _ & Hisai & Hap & _ & _ & _ & _ & _ & _ & _
                  & Hfl & _).
  rewrite Hw in Hwords. rewrite Hwords in Huniq, Hmc.
  rewrite <- Hw in Huniq, Hmc. rewrite Hu in Huniq. rewrite Hm in Hmc.
  assert (Hlen : length (words r) = 18%nat)
    by (rewrite Hwords; apply repeat_length).
  rewrite Hlen, Huniq in Httr. rewrite Hlen, Hmc in Hmd.
  change (0 <? 18)%nat with true in Httr, Hmd.
  change (length [str "leveraged"]) with 1%nat in Httr.
  rewrite !INR_IZR_INZ in Httr. rewrite !INR_IZR_INZ in Hmd.
  simpl Z.of_nat in Httr, Hmd.
  assert (Ht : ttr r = 1 / 18) by (rewrite Httr; reflexivity).
  assert (Hmd1 : markerDensity r = 1) by (rewrite Hmd; lra).
  pose proof (unit_draws_jitter g Hg) as Hjr.
  assert (Hscore : aiScore r = 98).
  { rewrite Hai, Hsd, Ht, Hmd1, Hj. apply clamp_above. lra. }
  assert (Hflags : flags (result r)
                   = [flag_monotonic; flag_buzzwords 18; flag_repetitive]).
  { rewrite Hfl, Hsd, Hmc, Ht. unfold dynamic_flags.
    replace (Rltb 0 6) with true by (symmetry; apply Rltb_true; lra).
    replace (Rltb (1 / 18) 0.4) with true by (symmetry; apply Rltb_true; lra).
    reflexivity. }
  split; [exact Hlen|].
  split; [rewrite Huniq; reflexivity|].
  split; [exact Hmc|]. split; [exact Ht|]. split; [exact Hmd1|].
  split; [exact Hsd|]. split; [exact Hscore|].
  split; [rewrite Hap, Hscore; apply Math_round_IZR|].
  split; [rewrite Hisai, Hscore; apply Rgtb_true; lra|].
  split; [exact Hflags|].
  rewrite Hflags. simpl. tauto.
Qed.

Lemma C6_leveraged18_witness :
  unit_draws (source 0 0)
  /\ exists r,
       analyze leveraged18 (source 0 0)
         = Some (r, advance (advance (source 0 0)))
       /\ analyzeResume leveraged18 (source 0 0)
          = Some (result r, advance (advance (source 0 0)))
       /\ length (words r) = 18%nat
       /\ length (uniqueWords r) = 1%nat
       /\ markerCount r = 18%nat
       /\ ttr r = 1 / 18
       /\ markerDensity r = 1
       /\ stdDev r = 0
       /\ aiScore r = 98
       /\ aiProbability (result r) = 98%Z
       /\ isAiGenerated (result r) = true
       /\ flags (result r)
          = [flag_monotonic; "High density of buzzwords (18 found)"%string;
             flag_repetitive]
       /\ In (flag_buzzwords 18) (flags (result r))
       /\ In flag_repetitive (flags (result r)).
Proof.
  assert (Hg : unit_draws (source 0 0)) by (apply source_unit_draws; lra).
  split.
  - exact Hg.
  - apply (C6_leveraged18 (source 0 0)). exact Hg.
Defined.

(** ** C7: the flags *)



(** ** C8: what the record depends on *)

(** C8, as stated, fails on "a b.": with a first draw of 0.5 in both
    calls, a second draw of 0 gives a [perplexityScore] of 33 and a second
    draw of 0.5 gives 43. *)
Lemma C8_counterexample_second_draw :
  (exists res1 res2,
     analyzeResume text_ab (source 0.5 0)
       = Some (res1, advance (advance (source 0.5 0)))
     /\ analyzeResume text_ab (source 0.5 0.5)
        = Some (res2, advance (advance (source 0.5 0.5)))
     /\ next_draw (source 0.5 0) = next_draw (source 0.5 0.5)
     /\ perplexityScore (linguisticAnalysis res1) = 33%Z
     /\ perplexityScore (linguisticAnalysis res2) = 43%Z
     /\ res1 <> res2)
  /\ ~ result_from_one_draw.
Proof.
  assert (Hg1 : unit_draws (source 0.5 0))
    by (apply source_unit_draws; lra).
  assert (Hg2 : unit_draws (source 0.5 0.5))
    by (apply source_unit_draws; lra).
  assert (Hex : exists res1 res2,
     analyzeResume text_ab (source 0.5 0)
       = Some (res1, advance (advance (source 0.5 0)))
     /\ analyzeResume text_ab (source 0.5 0.5)
        = Some (res2, advance (advance (source 0.5 0.5)))
     /\ next_draw (source 0.5 0) = next_draw (source 0.5 0.5)
     /\ perplexityScore (linguisticAnalysis res1) = 33%Z
     /\ perplexityScore (linguisticAnalysis res2) = 43%Z
     /\ res1 <> res2).
  { destruct (text_ab_run (source 0.5 0) Hg1) as (r1 & Hr1 & Hd1 & _ & Hh1).
    destruct (text_ab_run (source 0.5 0.5) Hg2) as (r2 & Hr2 & Hd2 & _ & Hh2).
    exists (result r1), (result r2).
    split; [apply analyzeResume_run; exact Hr1|].
    split; [apply analyzeResume_run; exact Hr2|].
    split; [reflexivity|].
    unfold describes in Hd1, Hd2. cbv zeta in Hd1, Hd2.
    destruct Hd1 as (_ & _ & _ & _ & _ & _ & _ & _ & _ & _ & _ & _ & _ & _
                     & _ & _ & _ & _ & _ & Hp1 & _).
    destruct Hd2 as (_ & _ & _ & _ & _ & _ & _ & _ & _ & _ & _ & _ & _ & _
                     & _ & _ & _ & _ & _ & Hp2 & _).
    change (next_draw (source 0.5 0)) with 0.5 in Hh1.
    change (next_draw (source 0.5 0.5)) with 0.5 in Hh2.
    change (next_draw (advance (source 0.5 0))) with 0 in Hp1.
    change (next_draw (advance (source 0.5 0.5))) with 0.5 in Hp2.
    assert (E1 : perplexityScore (linguisticAnalysis (result r1)) = 33%Z).
    { rewrite Hp1. apply Math_round_unique. rewrite Hh1. lra. }
    assert (E2 : perplexityScore (linguisticAnalysis (result r2)) = 43%Z).
    { rewrite Hp2. apply Math_round_unique. rewrite Hh2. lra. }
    split; [exact E1|]. split; [exact E2|].
    intros Heq. rewrite Heq in E1. rewrite E1 in E2. discriminate. }
  split; [exact Hex|].
  intros Hclaim.
  destruct Hex as (res1 & res2 & Hrun1 & Hrun2 & Hd & _ & _ & Hne).
  apply Hne. apply (Hclaim _ _ _ _ _ _ _ Hg1 Hg2 Hd Hrun1 Hrun2).
Qed.

(** C8, amended.  A call reads exactly two draws, and its record is a
    function of the text and of these two: calls on one text whose first
    draws agree return records that differ at most in [perplexityScore],
    and identical records when their second draws agree as well. *)
Theorem C8_two_draws (text : jsstring) (g1 g2 : RandomSource) :
  next_draw g1 = next_draw g2 ->
  exists res1 res2,
    analyzeResume text g1 = Some (res1, advance (advance g1))
    /\ analyzeResume text g2 = Some (res2, advance (advance g2))
    /\ without_perplexity res1 = without_perplexity res2
    /\ (next_draw (advance g1) = next_draw (advance g2) -> res1 = res2).
Proof.
  intros Hd.
  destruct (analyze_run text g1) as (r1 & Hr1 & Hd1).
  destruct (analyze_run text g2) as (r2 & Hr2 & Hd2).
  exists (result r1), (result r2).
  split; [apply analyzeResume_run; exact Hr1|].
  split; [apply analyzeResume_run; exact Hr2|].
  destruct (describes_same_draws text g1 g2 r1 r2 Hd1 Hd2 Hd) as [Hw Heq].
  split; [exact Hw|].
  intros Hd'. rewrite (Heq Hd'). reflexivity.
Qed.

Lemma C8_two_draws_witness :
  next_draw (source 0.5 0) = next_draw (source 0.5 0.5)
  /\ exists res1 res2,
       analyzeResume text_ab (source 0.5 0)
         = Some (res1, advance (advance (source 0.5 0)))
       /\ analyzeResume text_ab (source 0.5 0.5)
          = Some (res2, advance (advance (source 0.5 0.5)))
       /\ without_perplexity res1 = without_perplexity res2
       /\ (next_draw (advance (source 0.5 0))
           = next_draw (advance (source 0.5 0.5)) -> res1 = res2).
Proof.
  split.
  - reflexivity.
  - apply (C8_two_draws text_ab (source 0.5 0) (source 0.5 0.5)).
    reflexivity.
Defined.

(** ** C9: the sentence split *)

(** C9, as stated, fails on the text "...": a terminator occurs in it, it
    has no terminated run, and the code returns the whole text as its one
    sentence. *)
Lemma C9_counterexample_dots :
  has_terminator text_dots = true
  /\ sentences_of text_dots = [text_dots]
  /\ segmentation text_dots []
  /\ ~ segmentation text_dots (sentences_of text_dots)
  /\ ~ sentence_split_as_specified.
Proof.
  assert (Hno : ~ segmentation text_dots (sentences_of text_dots)).
  { intros H. apply segmentation_unique in H.
    rewrite text_dots_sentences in H. vm_compute in H. discriminate. }
  split; [reflexivity|].
  split; [exact text_dots_sentences|].
  split.
  { replace (@nil jsstring) with (match_loop re_sentence None text_dots 0)
      by (vm_compute; reflexivity).
    apply segmentation_exists. }
  split; [exact Hno|].
  intros H. destruct (H text_dots) as [H1 _]. apply Hno, H1. reflexivity.
Qed.

(** C9, amended.  Every text has exactly one list [l] of terminated runs
    (maximal runs of non-terminator characters, each with the terminators
    that follow it, in text order).  The sentences are [l] when [l] is not
    empty, and the whole text as one sentence when it is; the latter is
    the case of every text without a terminator. *)
Theorem C9_sentence_split (text : jsstring) :
  exists l,
    segmentation text l
    /\ (forall l', segmentation text l' -> l' = l)
    /\ String_match re_sentence text
       = match l with [] => None | _ => Some l end
    /\ sentences_of text = match l with [] => [text] | _ => l end
    /\ (has_terminator text = false -> l = [] /\ sentences_of text = [text]).
Proof.
  exists (match_loop re_sentence None text 0).
  split; [apply segmentation_exists|].
  split; [intros l'; apply segmentation_unique|].
  split.
  { unfold String_match.
    destruct (match_loop re_sentence None text 0); reflexivity. }
  split.
  { rewrite sentences_of_cases.
    destruct (match_loop re_sentence None text 0); reflexivity. }
  intros H. apply has_terminator_false in H.
  rewrite sentences_of_cases.
  rewrite (match_loop_sentence_open None text H). auto.
Qed.

(** ** C10: the two phrase entries of the buzzword list *)

(** C10.  The list has eighteen entries.  A word token of any text is a
    maximal run of letters, digits and underscores, hence holds no space
    and no hyphen and is neither "proven track record" nor
    "results-driven"; so [markerCount] and [markerDensity] of every call
    are those counted with the sixteen other entries, each of which is the
    one word of some text. *)
Theorem C10_phrase_markers_never_match (text : jsstring) (g : RandomSource) :
  length aiMarkers = 18%nat
  /\ (forall m, In m aiMarkers <-> In m aiMarkers16 \/ In m phrase_markers)
  /\ (forall w,
        In w (words_of (toLowerCase text)) ->
        word_run (toLowerCase text) w
        /\ ~ In " "%char w /\ ~ In "-"%char w
        /\ w <> str "proven track record" /\ w <> str "results-driven")
  /\ (exists r,
        analyze text g = Some (r, advance (advance g))
        /\ words r = words_of (toLowerCase text)
        /\ markerCount r = length (filter (includes aiMarkers16) (words r))
        /\ markerDensity r
           = (if (0 <? length (words r))%nat
              then INR (length (filter (includes aiMarkers16) (words r)))
                   / INR (length (words r))
              else 0))
  /\ Forall (fun m => words_of (toLowerCase m) = [m]) aiMarkers16.
Proof.
  split; [reflexivity|].
  split.
  { intros m. unfold aiMarkers, aiMarkers16, phrase_markers.
    simpl map. simpl In. tauto. }
  split.
  { intros w Hw. pose proof (words_of_word_run _ _ Hw) as Hrun.
    pose proof (word_run_forallb _ _ Hrun) as Hall.
    split; [exact Hrun|].
    rewrite forallb_forall in Hall.
    repeat split.
    - intros Hin. apply Hall in Hin. vm_compute in Hin. discriminate.
    - intros Hin. apply Hall in Hin. vm_compute in Hin. discriminate.
    - intros ->. specialize (Hall " "%char). vm_compute in Hall.
      assert (false = true) by (apply Hall; tauto). discriminate.
    - intros ->. specialize (Hall "-"%char). vm_compute in Hall.
      assert (false = true) by (apply Hall; tauto). discriminate. }
  split.
  { destruct (analyze_run text g) as (r & Hr & Hd).
    exists r. split; [exact Hr|].
    destruct Hd as (_ & Hwords & _ & _ & _ & _ & _ & _ & _ & Hcount & Hdens & _).
    assert (Hfilter : filter (fun w => includes aiMarkers w) (words r)
                      = filter (includes aiMarkers16) (words r)).
    { apply filter_ext_in. intros w Hw. rewrite Hwords in Hw.
      apply includes_aiMarkers16.
      apply (word_run_forallb (toLowerCase text)).
      apply words_of_word_run. exact Hw. }
    split; [exact Hwords|].
    split.
    - rewrite Hcount, Hfilter. reflexivity.
    - rewrite Hdens, Hcount, Hfilter. reflexivity. }
  unfold aiMarkers16. simpl map.
  repeat (constructor; [vm_compute; reflexivity|]). constructor.
Qed.

(* ================================================================== *)
(** * Further properties of the engine *)

(** ** The length of a sentence *)

Lemma trimStart_drop_while (s : jsstring) :
  trimStart s = drop_while is_space s.
Proof.
  induction s as [|c s IH]; simpl; [reflexivity|].
  destruct (is_space c); [exact IH | reflexivity].
Qed.

(** [trimEnd] cuts a tail of white space and leaves no white space at the
    end. *)
Lemma trimEnd_spec (s : jsstring) :
  exists tail,
    s = trimEnd s ++ tail
    /\ Forall (fun c => is_space c = true) tail
    /\ match rev (trimEnd s) with
       | c :: _ => is_space c = false
       | [] => True
       end.
Proof.
  unfold trimEnd. rewrite trimStart_drop_while.
  exists (rev (take_while is_space (rev s))).
  split; [|split].
  - rewrite <- rev_app_distr, take_drop_while, rev_involutive. reflexivity.
  - apply Forall_rev, take_while_all.
  - rewrite rev_involutive. apply drop_while_head.
Qed.

Lemma count_runs_spaces_tail (b : bool) (s tail : jsstring) :
  Forall (fun c => is_space c = true) tail ->
  count_runs not_space b (s ++ tail) = count_runs not_space b s.
Proof.
  intros Ht. revert b. induction s as [|c s IH]; intros b.
  - simpl. clear -Ht. revert b.
    induction Ht as [|c tail Hc _ IH]; intros b; simpl; [reflexivity|].
    unfold not_space. rewrite Hc. simpl. apply IH.
  - simpl. destruct (not_space c); rewrite IH; reflexivity.
Qed.

Lemma count_runs_trimStart (s : jsstring) :
  count_runs not_space false (trimStart s) = count_runs not_space false s.
Proof.
  induction s as [|c s IH]; [reflexivity|].
  cbn [trimStart]. destruct (is_space c) eqn:Ec; [|reflexivity].
  rewrite IH. cbn [count_runs].
  change (not_space c) with (negb (is_space c)). rewrite Ec. reflexivity.
Qed.

Lemma word_count_trim (s : jsstring) : word_count (trim s) = word_count s.
Proof.
  unfold word_count, trim.
  destruct (trimEnd_spec (trimStart s)) as (tail & Hs & Ht & _).
  transitivity (count_runs not_space false (trimEnd (trimStart s) ++ tail)).
  - symmetry. apply count_runs_spaces_tail. exact Ht.
  - rewrite <- Hs. apply count_runs_trimStart.
Qed.

(** Runs of white space against runs of the other characters: they
    alternate, so their numbers differ by what stands at the two ends. *)
Lemma runs_alternate (s : jsstring) (b : bool) :
  (count_runs not_space b s + (if b then 1 else 0)
   = count_runs is_space (negb b) s
     + (if match rev s with c :: _ => not_space c | [] => b end
        then 1 else 0))%nat.
Proof.
  revert b. induction s as [|c s IH]; intros b.
  - simpl. lia.
  - assert (Hlast : match rev (c :: s) with d :: _ => not_space d | [] => b end
                    = match rev s with
                      | d :: _ => not_space d
                      | [] => not_space c
                      end).
    { simpl rev. destruct (rev s); reflexivity. }
    rewrite Hlast. simpl count_runs.
    change (not_space c) with (negb (is_space c)).
    destruct (is_space c) eqn:Ec; simpl negb; cbv iota.
    + specialize (IH false). simpl negb in IH. cbv iota in IH.
      destruct b; simpl; lia.
    + specialize (IH true). simpl negb in IH. cbv iota in IH.
      destruct b; simpl; lia.
Qed.

Lemma count_runs_drop_while (p : ascii -> bool) (s : jsstring) :
  count_runs p true s = count_runs p false (drop_while p s).
Proof.
  induction s as [|c s IH]; [reflexivity|].
  cbn [count_runs drop_while]. destruct (p c) eqn:Ec.
  - exact IH.
  - cbn [count_runs]. rewrite Ec. reflexivity.
Qed.

Lemma split_loop_space_prev prev prev' s k piece :
  split_loop re_space prev s k piece = split_loop re_space prev' s k piece.
Proof. destruct s; destruct k; reflexivity. Qed.

(** [split(/\s+/)] gives one piece more than there are runs of white
    space. *)
Lemma split_loop_space_length (s : jsstring) (prev : option ascii) (k : nat)
  (piece : jsstring) :
  length (split_loop re_space prev s k piece)
  = S (count_runs is_space false (skipn k s)).
Proof.
  revert prev k piece. induction s as [|c s IH]; intros prev k piece.
  - destruct k; reflexivity.
  - destruct k as [|k].
    + simpl skipn.
      change (split_loop re_space prev (c :: s) 0 piece)
        with (match exec_at re_space prev (c :: s) with
              | Some (S n) => piece :: split_loop re_space (Some c) s n []
              | Some 0 =>
                  match piece with
                  | [] => split_loop re_space (Some c) s 0 [c]
                  | _ => piece :: split_loop re_space (Some c) s 0 [c]
                  end
              | None => split_loop re_space (Some c) s 0 (piece ++ [c])
              end).
      unfold re_space. rewrite exec_at_plus_only.
      simpl take_while. simpl count_runs.
      destruct (is_space c) eqn:Ec.
      * simpl length. fold re_space. rewrite IH.
        rewrite skipn_take_while, count_runs_drop_while. reflexivity.
      * fold re_space. rewrite IH. reflexivity.
    + simpl. apply IH.
Qed.

Lemma trim_empty_iff (s : jsstring) :
  trim s = [] <-> Forall (fun c => is_space c = true) s.
Proof.
  unfold trim. split.
  - intros H.
    destruct (trimEnd_spec (trimStart s)) as (tail & Hs & Ht & _).
    rewrite H in Hs. simpl in Hs. rewrite trimStart_drop_while in Hs.
    rewrite <- (take_drop_while is_space s), Hs.
    apply Forall_app. split; [apply take_while_all | exact Ht].
  - intros H. rewrite trimStart_drop_while, drop_while_all by exact H.
    reflexivity.
Qed.

Lemma trim_head_not_space (s : jsstring) :
  match trim s with c :: _ => is_space c = false | [] => True end.
Proof.
  unfold trim.
  destruct (trimEnd_spec (trimStart s)) as (tail & Hs & _ & _).
  destruct (trimEnd (trimStart s)) as [|c t] eqn:Et; [exact I|].
  pose proof (drop_while_head is_space s) as Hh.
  rewrite <- trimStart_drop_while, Hs in Hh. exact Hh.
Qed.

Lemma sentence_length_facts (s : jsstring) :
  sentence_length s = Nat.max 1 (word_count s)
  /\ (1 <= sentence_length s)%nat
  /\ (trim s = [] <-> word_count s = 0%nat).
Proof.
  assert (Hlen : sentence_length s = Nat.max 1 (word_count s)
                 /\ (trim s = [] <-> word_count s = 0%nat)).
  { unfold sentence_length. rewrite <- (word_count_trim s).
    pose proof (trim_head_not_space s) as Hhead.
    assert (Hlast : match rev (trim s) with
                    | c :: _ => is_space c = false
                    | [] => True
                    end).
    { unfold trim.
      destruct (trimEnd_spec (trimStart s)) as (tail & _ & _ & H). exact H. }
    destruct (trim s) as [|c t] eqn:Et.
    - split; [reflexivity|]. split; reflexivity.
    - unfold String_split. rewrite split_loop_space_length. simpl skipn.
      pose proof (runs_alternate (c :: t) false) as Halt.
      simpl negb in Halt.
      destruct (rev (c :: t)) as [|d r] eqn:Er.
      { apply (f_equal (@length ascii)) in Er. rewrite length_rev in Er.
        discriminate. }
      assert (Hd : not_space d = true) by (unfold not_space; rewrite Hlast; reflexivity).
      rewrite Hd in Halt.
      assert (Hsp : count_runs is_space true (c :: t)
                    = count_runs is_space false (c :: t)).
      { simpl. rewrite Hhead. reflexivity. }
      unfold word_count. rewrite Hsp in Halt.
      split; [lia|]. split; [discriminate | lia]. }
  destruct Hlen as [H1 H2].
  split; [exact H1|]. split; [lia | exact H2].
Qed.

(** The length [s.trim().split(/\s+/).length] of a sentence is the number
    of its maximal runs of characters other than white space, and 1 when
    there is none: an empty or blank sentence counts as one word. *)
Theorem sentence_length_word_count (s : jsstring) :
  sentence_length s = Nat.max 1 (word_count s)
  /\ (1 <= sentence_length s)%nat
  /\ (Forall (fun c => is_space c = true) s -> sentence_length s = 1%nat)
  /\ (trim s = [] <-> word_count s = 0%nat).
Proof.
  destruct (sentence_length_facts s) as (Hmax & Hpos & Hblank).
  split; [exact Hmax|]. split; [exact Hpos|]. split; [|exact Hblank].
  intros Hsp. apply trim_empty_iff in Hsp. apply Hblank in Hsp.
  rewrite Hmax, Hsp. reflexivity.
Qed.

(** ** The features of every text *)

Lemma nodup_length_le (l : list jsstring) :
  (length (nodup jsstring_dec l) <= length l)%nat.
Proof.
  induction l as [|x l IH]; simpl; [lia|].
  destruct (in_dec jsstring_dec x l); simpl; lia.
Qed.

Lemma nodup_length_pos (l : list jsstring) :
  l <> [] -> (1 <= length (nodup jsstring_dec l))%nat.
Proof.
  destruct l as [|x l]; [contradiction|]. intros _.
  assert (Hin : In x (nodup jsstring_dec (x :: l)))
    by (apply nodup_In; left; reflexivity).
  destruct (nodup jsstring_dec (x :: l)); [contradiction | simpl; lia].
Qed.

Lemma sum_lengths_ge (l : list nat) (acc : R) :
  Forall (fun n => (1 <= n)%nat) l ->
  acc + INR (length l) <= fold_left (fun a b => a + INR b) l acc.
Proof.
  intros H. revert acc. induction H as [|b l Hb _ IH]; intros acc.
  - simpl. lra.
  - cbn [fold_left length]. rewrite S_INR.
    specialize (IH (acc + INR b)). apply le_INR in Hb. simpl in Hb. lra.
Qed.

Lemma fraction_bounds (a n : R) :
  0 < n -> 0 <= a <= n ->
  0 <= a / n <= 1 /\ (a / n = 0 -> a = 0).
Proof.
  intros Hn [Ha0 Han].
  assert (Hinv : 0 < / n) by (apply Rinv_0_lt_compat; exact Hn).
  assert (Hone : n * / n = 1) by (apply Rinv_r; lra).
  unfold Rdiv. repeat split.
  - apply Rmult_le_pos; lra.
  - rewrite <- Hone. apply Rmult_le_compat_r; lra.
  - intros H0. replace a with (a * / n * n); [rewrite H0; lra|].
    rewrite Rmult_assoc, (Rmult_comm (/ n)), Hone. lra.
Qed.

Lemma analyze_functional (text : jsstring) (g g1 g2 : RandomSource)
  (r1 r2 : Run) :
  analyze text g = Some (r1, g1) -> analyze text g = Some (r2, g2) -> r1 = r2.
Proof. intros H1 H2. rewrite H1 in H2. inversion H2. reflexivity. Qed.

(** On every text: there is at least one sentence (the guards [|| 1] of
    the two means never replace a zero), every sentence has a length of 1
    or more, so the mean length is 1 or more; the type-token ratio lies in
    [0, 1] and is 0 only when there is no word; the buzzword density lies
    in [0, 1]. *)
Theorem feature_bounds (text : jsstring) (g : RandomSource) :
  exists r,
    analyze text g = Some (r, advance (advance g))
    /\ sentences r <> []
    /\ or_one (length (sentenceLengths r)) = length (sentences r)
    /\ Forall (fun n => (1 <= n)%nat) (sentenceLengths r)
    /\ 1 <= avgLen r
    /\ 0 <= variance r /\ 0 <= stdDev r
    /\ (length (uniqueWords r) <= length (words r))%nat
    /\ (markerCount r <= length (words r))%nat
    /\ 0 <= ttr r <= 1
    /\ (ttr r = 0 <-> words r = [])
    /\ 0 <= markerDensity r <= 1.
Proof.
  destruct (analyze_run text g) as (r & Hr & Hd).
  exists r. split; [exact Hr|].
  unfold describes in Hd. cbv zeta in Hd.
  destruct Hd as (Hs & _ & Hsl & Havg & _ & Hvar0 & Hsd & Hu & Httr & Hmc
                  & Hmd & _).
  assert (Hne : sentences r <> [])
    by (rewrite Hs; apply sentences_of_nonempty).
  assert (Hlen : length (sentenceLengths r) = length (sentences r))
    by (rewrite Hsl; apply length_map).
  assert (Hor : or_one (length (sentenceLengths r)) = length (sentences r)).
  { rewrite Hlen. destruct (sentences r); [contradiction | reflexivity]. }
  assert (Hall : Forall (fun n => (1 <= n)%nat) (sentenceLengths r)).
  { rewrite Hsl. apply Forall_forall. intros n Hn.
    apply in_map_iff in Hn. destruct Hn as (s & <- & _).
    apply sentence_length_facts. }
  assert (Hpos : 0 < INR (length (sentences r))).
  { apply lt_0_INR. destruct (sentences r); [contradiction | simpl; lia]. }
  split; [exact Hne|]. split; [exact Hor|]. split; [exact Hall|].
  split.
  { rewrite Havg, Hor.
    pose proof (sum_lengths_ge (sentenceLengths r) 0 Hall) as Hsum.
    rewrite Hlen in Hsum.
    apply Rmult_le_reg_r with (r := INR (length (sentences r))); [exact Hpos|].
    unfold Rdiv. rewrite Rmult_assoc, Rinv_l by lra. lra. }
  split; [exact Hvar0|].
  split; [rewrite Hsd; apply sqrt_pos|].
  pose proof (nodup_length_le (words r)) as Hule.
  assert (Hmle : (markerCount r <= length (words r))%nat)
    by (rewrite Hmc; apply filter_length_le).
  split; [rewrite Hu; exact Hule|]. split; [exact Hmle|].
  destruct (words r) as [|w ws] eqn:Ew.
  - simpl in Httr, Hmd. rewrite Httr, Hmd.
    split; [lra|]. split; [tauto | lra].
  - assert (Hw : 0 < INR (length (w :: ws))) by (apply lt_0_INR; simpl; lia).
    assert (Hu1 : (1 <= length (uniqueWords r))%nat).
    { rewrite Hu. apply nodup_length_pos. discriminate. }
    rewrite Hu in Hu1.
    change (0 <? length (w :: ws))%nat with true in Httr, Hmd.
    apply le_INR in Hule. apply le_INR in Hmle. apply le_INR in Hu1.
    change (INR 1) with 1 in Hu1.
    pose proof (pos_INR (markerCount r)) as Hm0.
    rewrite Hu in Httr.
    set (n := INR (length (w :: ws))) in *.
    destruct (fraction_bounds (INR (length (nodup jsstring_dec (w :: ws)))) n Hw)
      as [Hb1 Hz1]; [lra|].
    destruct (fraction_bounds (INR (markerCount r)) n Hw) as [Hb2 _]; [lra|].
    rewrite Httr, Hmd.
    split; [exact Hb1|]. split; [|exact Hb2].
    split; [intros H0; apply Hz1 in H0; lra | discriminate].
Qed.

(** ** The two percentages of every record *)

Lemma round_complement64 (rnd : R -> R) (x : R) :
  rounding rnd -> 5 <= x <= 98 ->
  let h := sub64 rnd 100 x in
  ((Math_round x + Math_round h = 100)%Z
   \/ (Math_round x + Math_round h = 101)%Z)
  /\ ((Math_round x + Math_round h = 101)%Z
      <-> h = 100 + 1 / 2 - IZR (Math_round x))
  /\ (2 <= Math_round h <= 95)%Z
  /\ (5 <= Math_round x <= 98)%Z.
Proof.
  intros Hr Hx. cbv zeta. unfold sub64.
  destruct (Math_round_spec x) as [Xlo Xhi].
  assert (Hn : (5 <= Math_round x <= 98)%Z)
    by (apply Math_round_between; lra).
  set (n := Math_round x) in *.
  assert (Hh : IZR (199 - 2 * n) / 2 <= rnd (100 - x) <= IZR (201 - 2 * n) / 2).
  { apply rounding_between; [exact Hr | | |].
    - apply small_double. lia.
    - apply small_double. lia.
    - rewrite !minus_IZR, !mult_IZR. lra. }
  rewrite !minus_IZR, !mult_IZR in Hh.
  assert (H2 : 2 <= rnd (100 - x) <= 95).
  { apply (rounding_between_int rnd 2 95); [exact Hr | | | lra].
    - apply small_double. lia.
    - apply small_double. lia. }
  set (h := rnd (100 - x)) in *.
  destruct (Math_round_spec h) as [Hlo Hhi].
  set (m := Math_round h) in *.
  assert (M1 : (99 < n + m)%Z).
  { apply lt_IZR. rewrite plus_IZR. lra. }
  assert (M2 : (n + m < 102)%Z).
  { apply lt_IZR. rewrite plus_IZR. lra. }
  split; [lia|]. split; [|split; [|exact Hn]].
  - split.
    + intros H. assert (Hm : IZR m = 101 - IZR n).
      { rewrite <- (minus_IZR 101 n). f_equal. lia. }
      lra.
    + intros H. assert (Hm : (100 < n + m)%Z).
      { apply lt_IZR. rewrite plus_IZR. lra. }
      lia.
  - apply Math_round_between. exact H2.
Qed.

(** On every text, in double precision and with draws in [0, 1): the two
    percentages add up to 100 or to 101, and to 101 exactly when
    [humanScore], the double [100 - aiScore], is [aiProbability] short of
    100.5; [aiProbability] lies in [5, 98] and [humanProbability] in
    [2, 95]. *)
Theorem probabilities_sum (rnd pow2 : R -> R) (text : jsstring)
  (g : RandomSource) :
  rounding rnd -> squaring pow2 -> unit_draws g ->
  exists r,
    analyze64 rnd pow2 text g = Some (r, advance (advance g))
    /\ analyzeResume64 rnd pow2 text g
       = Some (result r, advance (advance g))
    /\ humanScore r = sub64 rnd 100 (aiScore r)
    /\ aiProbability (result r) = Math_round (aiScore r)
    /\ humanProbability (result r) = Math_round (humanScore r)
    /\ ((aiProbability (result r) + humanProbability (result r) = 100)%Z
        \/ (aiProbability (result r) + humanProbability (result r) = 101)%Z)
    /\ ((aiProbability (result r) + humanProbability (result r) = 101)%Z
        <-> humanScore r = 100 + 1 / 2 - IZR (aiProbability (result r)))
    /\ (2 <= humanProbability (result r) <= 95)%Z
    /\ (5 <= aiProbability (result r) <= 98)%Z.
Proof.
  intros Hr Hp Hg.
  destruct (analyze64_run rnd pow2 text g Hr Hp) as (r & Hrun & _ & Hs).
  exists r. split; [exact Hrun|].
  split; [apply analyzeResume64_run; exact Hrun|].
  unfold scoring64 in Hs. cbv zeta in Hs.
  destruct Hs as (_ & _ & Hai & Hh & _ & Hap & Hhp & _).
  assert (Hrange : 5 <= aiScore r <= 98)
    by (rewrite Hai; apply clamp_bounds; lra).
  split; [exact Hh|]. split; [exact Hap|]. split; [exact Hhp|].
  rewrite Hap, Hhp, Hh.
  apply (round_complement64 rnd (aiScore r) Hr Hrange).
Qed.

Lemma probabilities_sum_witness :
  rounding exact /\ squaring square /\ unit_draws (source 0.45 0)
  /\ exists r,
       analyze64 exact square text_ab (source 0.45 0)
         = Some (r, advance (advance (source 0.45 0)))
       /\ analyzeResume64 exact square text_ab (source 0.45 0)
          = Some (result r, advance (advance (source 0.45 0)))
       /\ humanScore r = sub64 exact 100 (aiScore r)
       /\ aiProbability (result r) = Math_round (aiScore r)
       /\ humanProbability (result r) = Math_round (humanScore r)
       /\ ((aiProbability (result r) + humanProbability (result r) = 100)%Z
           \/ (aiProbability (result r) + humanProbability (result r) = 101)%Z)
       /\ ((aiProbability (result r) + humanProbability (result r) = 101)%Z
           <-> humanScore r = 100 + 1 / 2 - IZR (aiProbability (result r)))
       /\ (2 <= humanProbability (result r) <= 95)%Z
       /\ (5 <= aiProbability (result r) <= 98)%Z.
Proof.
  assert (Hg : unit_draws (source 0.45 0)) by (apply source_unit_draws; lra).
  split; [exact exact_rounding|]. split; [exact square_squaring|].
  split; [exact Hg|].
  apply (probabilities_sum exact square text_ab (source 0.45 0)).
  - exact exact_rounding.
  - exact square_squaring.
  - exact Hg.
Defined.

(** ** Sentences of equal length *)

Lemma squares_zero (m : R) (l : list nat) (acc : R) :
  0 <= acc ->
  fold_left (fun a b => a + Math_pow2 (INR b - m)) l acc = 0 ->
  acc = 0 /\ Forall (fun b => INR b = m) l.
Proof.
  revert acc. induction l as [|b l IH]; intros acc Hacc H.
  - simpl in H. split; [exact H | constructor].
  - cbn [fold_left] in H.
    pose proof (pow2_ge_0 (INR b - m)) as Hsq. unfold Math_pow2 in *.
    destruct (IH (acc + (INR b - m) ^ 2)) as [H0 Hall]; [lra | exact H|].
    assert (Hb : (INR b - m) ^ 2 = 0) by lra.
    split; [lra|]. constructor; [|exact Hall].
    apply Rminus_diag_uniq. simpl in Hb.
    apply Rmult_integral in Hb. destruct Hb as [Hb | Hb]; [exact Hb|].
    rewrite Rmult_1_r in Hb. exact Hb.
Qed.

Lemma all_equal_repeat (l : list nat) (k : nat) :
  (forall b, In b l -> b = k) -> l = repeat k (length l).
Proof.
  induction l as [|b l IH]; intros H; [reflexivity|].
  simpl. rewrite (H b) by (left; reflexivity).
  f_equal. apply IH. intros c Hc. apply H. right. exact Hc.
Qed.

Lemma stdDev_zero_consequences (text : jsstring) (g : RandomSource) (r : Run) :
  describes text g r ->
  stdDev r = 0 ->
  burstinessScore (linguisticAnalysis (result r)) = 0%Z
  /\ sentenceVariety (linguisticAnalysis (result r)) = 0%Z
  /\ In flag_monotonic (flags (result r)).
Proof.
  intros Hd H0. unfold describes in Hd. cbv zeta in Hd.
  destruct Hd as (_ & _ & _ & _ & _ & Hvar0 & Hsd & _ & _ & _ & _
                  & _ & _ & _ & _ & _ & _ & _ & _ & _ & Hbu & _ & Hsv & Hfl
                  & _).
  assert (Hv : variance r = 0).
  { rewrite Hsd in H0. apply sqrt_eq_0 in H0; assumption. }
  split; [|split].
  - rewrite Hbu, H0. apply Math_round_unique.
    unfold Math_min, Math_max, Rmin, Rmax.
    destruct (Rle_dec 0 (0 * 8)); destruct (Rle_dec 100 _); simpl; lra.
  - rewrite Hsv, Hv. apply Math_round_unique.
    unfold Math_min, Rmin. destruct (Rle_dec 100 (0 * 2)); simpl; lra.
  - rewrite Hfl.
    apply (dynamic_flags_spec (stdDev r) (markerCount r) (ttr r)).
    rewrite H0. lra.
Qed.

(** The sentence lengths of a call are those of the sentences of its
    text.  The standard deviation is 0 exactly when all the sentences of
    the text have the same length; then [burstinessScore] and
    [sentenceVariety] are 0 and the flag of monotonic structure is raised. *)
Theorem stdDev_zero_iff (text : jsstring) (g : RandomSource) :
  exists r,
    analyze text g = Some (r, advance (advance g))
    /\ sentences r = sentences_of text
    /\ sentenceLengths r = map sentence_length (sentences_of text)
    /\ (stdDev r = 0 <->
        forall a b, In a (sentenceLengths r) -> In b (sentenceLengths r) ->
                    a = b)
    /\ (stdDev r = 0 ->
        burstinessScore (linguisticAnalysis (result r)) = 0%Z
        /\ sentenceVariety (linguisticAnalysis (result r)) = 0%Z
        /\ In flag_monotonic (flags (result r))).
Proof.
  destruct (analyze_run text g) as (r & Hr & Hd).
  exists r. split; [exact Hr|].
  pose proof Hd as Hd'.
  unfold describes in Hd. cbv zeta in Hd.
  destruct Hd as (Hs & _ & Hsl & Havg & Hvar & Hvar0 & Hsd & _ & _ & _ & _
                  & _ & _ & _ & _ & _ & _ & _ & _ & _ & Hbu & _ & Hsv & Hfl
                  & _).
  split; [exact Hs|].
  split; [rewrite Hsl, Hs; reflexivity|].
  split; [split|].
  - (* all the lengths are the mean *)
    intros H0. rewrite Hsd in H0.
    apply sqrt_eq_0 in H0; [|exact Hvar0].
    rewrite H0 in Hvar. symmetry in Hvar.
    pose proof (or_one_gt0 (length (sentenceLengths r))) as Hn.
    assert (Hsum : fold_left (fun a b => a + Math_pow2 (INR b - avgLen r))
                     (sentenceLengths r) 0 = 0).
    { unfold Rdiv in Hvar. apply Rmult_integral in Hvar.
      destruct Hvar as [Hvar | Hvar]; [exact Hvar|].
      pose proof (Rinv_0_lt_compat _ Hn). lra. }
    apply squares_zero in Hsum; [|lra]. destruct Hsum as [_ Hall].
    rewrite Forall_forall in Hall.
    intros a b Ha Hb. apply INR_eq. rewrite (Hall a Ha), (Hall b Hb).
    reflexivity.
  - (* equal lengths *)
    intros Heq.
    destruct (sentenceLengths r) as [|k l] eqn:El.
    { exfalso. apply (sentences_of_nonempty text).
      rewrite <- Hs. destruct (sentences r); [reflexivity | discriminate]. }
    assert (Hrep : k :: l = repeat k (S (length l))).
    { apply (all_equal_repeat (k :: l) k). intros b Hb.
      apply Heq; [exact Hb | left; reflexivity]. }
    assert (El' : map sentence_length (sentences_of text)
                  = repeat k (S (length l)))
      by (rewrite <- Hs, <- Hsl; exact Hrep).
    destruct (uniform_text_run text g k (length l) El')
      as (r' & Hr' & _ & _ & _ & Hsd').
    rewrite (analyze_functional text g _ _ r r' Hr Hr'). exact Hsd'.
  - apply (stdDev_zero_consequences text g r Hd').
Qed.

(** ** Texts without a terminator *)

(** A text in which no terminator occurs is one sentence: its length is
    the number of its words (1 when it has none), the standard deviation is
    0, [burstinessScore] and [sentenceVariety] are 0 and the flag of
    monotonic structure is raised, whatever the words are. *)
Theorem unterminated_text_is_monotonic (text : jsstring) (g : RandomSource) :
  has_terminator text = false ->
  exists r,
    analyze text g = Some (r, advance (advance g))
    /\ sentences r = [text]
    /\ sentenceLengths r = [Nat.max 1 (word_count text)]
    /\ avgLen r = INR (Nat.max 1 (word_count text))
    /\ stdDev r = 0
    /\ burstinessScore (linguisticAnalysis (result r)) = 0%Z
    /\ sentenceVariety (linguisticAnalysis (result r)) = 0%Z
    /\ In flag_monotonic (flags (result r)).
Proof.
  intros Hno. apply has_terminator_false in Hno.
  assert (Hsent : sentences_of text = [text]).
  { rewrite sentences_of_cases.
    rewrite (match_loop_sentence_open None text Hno). reflexivity. }
  assert (Hsl : map sentence_length (sentences_of text)
                = repeat (Nat.max 1 (word_count text)) 1).
  { rewrite Hsent. simpl.
    destruct (sentence_length_facts text) as [-> _]. reflexivity. }
  destruct (uniform_text_run text g _ 0 Hsl) as (r & Hr & Hd & Havg & _ & Hsd).
  exists r. split; [exact Hr|].
  destruct (stdDev_zero_consequences text g r Hd Hsd) as (Hb & Hv & Hf).
  unfold describes in Hd. cbv zeta in Hd.
  destruct Hd as (Hs & _ & Hlens & _).
  split; [rewrite Hs; exact Hsent|].
  split; [rewrite Hlens, Hs; exact Hsl|].
  split; [exact Havg|]. split; [exact Hsd|].
  split; [exact Hb|]. split; [exact Hv | exact Hf].
Qed.

Lemma unterminated_text_is_monotonic_witness :
  has_terminator text_no_end = false
  /\ exists r,
       analyze text_no_end (source 0 0)
         = Some (r, advance (advance (source 0 0)))
       /\ sentences r = [text_no_end]
       /\ sentenceLengths r = [Nat.max 1 (word_count text_no_end)]
       /\ avgLen r = INR (Nat.max 1 (word_count text_no_end))
       /\ stdDev r = 0
       /\ burstinessScore (linguisticAnalysis (result r)) = 0%Z
       /\ sentenceVariety (linguisticAnalysis (result r)) = 0%Z
       /\ In flag_monotonic (flags (result r)).
Proof.
  split.
  - reflexivity.
  - apply (unterminated_text_is_monotonic text_no_end (source 0 0)).
    reflexivity.
Defined.

(** ** Texts without a word *)


Lemma lower_unit_lower_word (c : ascii) :
  is_word (lower_unit c) = true -> is_lower_word (lower_unit c) = true.
Proof. destruct c as [[] [] [] [] [] [] [] []]; vm_compute; auto. Qed.

Lemma match_loop_word_none (s : jsstring) (prev : option ascii) (k : nat) :
  Forall (fun c => is_word c = false) s ->
  match_loop re_word prev s k = [].
Proof.
  intros H. revert prev k. induction H as [|c s Hc _ IH]; intros prev k.
  - destruct k; [|reflexivity].
    change (match_loop re_word prev [] 0)
      with (match exec_at re_word prev [] with
            | Some _ => [[]]
            | None => @nil jsstring
            end).
    rewrite exec_at_word. destruct (is_word_at prev); reflexivity.
  - destruct k as [|k]; [|rewrite match_loop_cons_skip; apply IH].
    rewrite match_loop_cons, exec_at_word. simpl take_while. rewrite Hc.
    destruct (is_word_at prev); apply IH.
Qed.



(** ** Lower-case words *)

Lemma word_run_In (text w : jsstring) (c : ascii) :
  word_run text w -> In c w -> In c text /\ is_word c = true.
Proof.
  intros (before & after & -> & _ & Hw & _) Hc. split.
  - apply in_or_app. right. apply in_or_app. left. exact Hc.
  - rewrite Forall_forall in Hw. apply Hw. exact Hc.
Qed.

(** The words of every text are not empty and hold digits, lower-case
    letters and underscores only: the letters A to Z of the text are
    counted and compared with the buzzwords in lower case. *)
Theorem words_are_lower_case (text : jsstring) (g : RandomSource) :
  exists r,
    analyze text g = Some (r, advance (advance g))
    /\ forall w, In w (words r) ->
                 w <> [] /\ Forall (fun c => is_lower_word c = true) w.
Proof.
  destruct (analyze_run text g) as (r & Hr & Hd).
  exists r. split; [exact Hr|].
  unfold describes in Hd. cbv zeta in Hd. destruct Hd as (_ & Hw & _).
  intros w Hin. rewrite Hw in Hin.
  apply words_of_word_run in Hin.
  split.
  - destruct Hin as (_ & _ & _ & Hne & _). exact Hne.
  - apply Forall_forall. intros c Hc.
    destruct (word_run_In _ _ c Hin Hc) as [Htext Hword].
    unfold toLowerCase in Htext. apply in_map_iff in Htext.
    destruct Htext as (c0 & <- & _).
    apply lower_unit_lower_word. exact Hword.
Qed.

Example ex_shout :
  words_of (toLowerCase text_shout)
  = [str "leveraged"; str "synergy"; str "robust"]
  /\ filter (includes aiMarkers) (words_of (toLowerCase text_shout))
     = [str "leveraged"; str "synergy"; str "robust"].
Proof. vm_compute. auto. Qed.

(** ** Flags, verdict and percentages of one record *)

Lemma round_below (x : R) (n : Z) : x < IZR n -> (Math_round x <= n)%Z.
Proof.
  intros H. destruct (Math_round_spec x) as [Hlo _].
  assert (H' : (Math_round x < n + 1)%Z).
  { apply lt_IZR. rewrite plus_IZR. lra. }
  lia.
Qed.

Lemma round_above (x : R) (n : Z) : IZR n <= x -> (n <= Math_round x)%Z.
Proof.
  intros H. destruct (Math_round_spec x) as [_ Hhi].
  assert (H' : (n < Math_round x + 1)%Z).
  { apply lt_IZR. rewrite plus_IZR. lra. }
  lia.
Qed.

(** In every record the flags agree with the percentages shown beside
    them: the flag of monotonic structure goes with a [burstinessScore] of
    48 or less and its absence with 48 or more; the flag of repetitive
    vocabulary goes with a [vocabularyRichness] of 64 or less and its
    absence with 64 or more; a true verdict goes with [aiProbability >= 55]
    and [humanProbability <= 45], a false one with [aiProbability <= 55]
    and [humanProbability >= 45]. *)
Theorem record_is_coherent (text : jsstring) (g : RandomSource) :
  exists res,
    analyzeResume text g = Some (res, advance (advance g))
    /\ (let la := linguisticAnalysis res in
        (In flag_monotonic (flags res) -> (burstinessScore la <= 48)%Z)
        /\ (~ In flag_monotonic (flags res) -> (48 <= burstinessScore la)%Z)
        /\ (In flag_repetitive (flags res) -> (vocabularyRichness la <= 64)%Z)
        /\ (~ In flag_repetitive (flags res) ->
            (64 <= vocabularyRichness la)%Z))
    /\ (isAiGenerated res = true ->
        (55 <= aiProbability res)%Z /\ (humanProbability res <= 45)%Z
        /\ verdictHeadline res = headline_ai
        /\ suggestions res = suggestions_ai)
    /\ (isAiGenerated res = false ->
        (aiProbability res <= 55)%Z /\ (45 <= humanProbability res)%Z
        /\ verdictHeadline res = headline_human
        /\ suggestions res = suggestions_human).
Proof.
  destruct (analyze_run text g) as (r & Hr & Hd).
  exists (result r). split; [apply analyzeResume_run; exact Hr|].
  unfold describes in Hd. cbv zeta in Hd.
  destruct Hd as (_ & _ & _ & _ & _ & _ & Hsd & _ & _ & _ & _ & _ & _ & Hh
                  & Hisai & Hap & Hhp & Hvh & _ & _ & Hbu & Hvr & _ & Hfl
                  & Hsg).
  destruct (dynamic_flags_spec (stdDev r) (markerCount r) (ttr r))
    as (_ & Hmono & _ & Hrep & _).
  rewrite <- Hfl in Hmono, Hrep.
  assert (Hsd0 : 0 <= stdDev r) by (rewrite Hsd; apply sqrt_pos).
  split; [cbv zeta; repeat split|]; [| | | |split].
  - intros Hin. apply Hmono in Hin. rewrite Hbu. apply round_below.
    unfold Math_min, Math_max, Rmin, Rmax.
    destruct (Rle_dec 0 (stdDev r * 8)); destruct (Rle_dec 100 _); lra.
  - intros Hnin. rewrite Hbu. apply round_above.
    assert (6 <= stdDev r).
    { destruct (Rlt_dec (stdDev r) 6) as [Hlt|]; [|lra].
      exfalso. apply Hnin, Hmono. exact Hlt. }
    unfold Math_min, Math_max, Rmin, Rmax.
    destruct (Rle_dec 0 (stdDev r * 8)); destruct (Rle_dec 100 _); lra.
  - intros Hin. apply Hrep in Hin. rewrite Hvr. apply round_below.
    unfold Math_min, Math_max, Rmin, Rmax.
    destruct (Rle_dec 0 (ttr r * 160)); destruct (Rle_dec 100 _); lra.
  - intros Hnin. rewrite Hvr. apply round_above.
    assert (0.4 <= ttr r).
    { destruct (Rlt_dec (ttr r) 0.4) as [Hlt|]; [|lra].
      exfalso. apply Hnin, Hrep. exact Hlt. }
    unfold Math_min, Math_max, Rmin, Rmax.
    destruct (Rle_dec 0 (ttr r * 160)); destruct (Rle_dec 100 _); lra.
  - intros Hv. rewrite Hv in Hvh, Hsg. rewrite Hisai in Hv.
    apply Rgtb_true in Hv.
    split; [rewrite Hap; apply round_above; lra|].
    split; [rewrite Hhp, Hh; apply round_below; lra|].
    split; assumption.
  - intros Hv. rewrite Hv in Hvh, Hsg. rewrite Hisai in Hv.
    unfold Rgtb in Hv. apply Rltb_false in Hv.
    split; [rewrite Hap|split; [rewrite Hhp, Hh; apply round_above; lra|]].
    + destruct (Math_round_spec (aiScore r)) as [Hlo _].
      assert (H' : (Math_round (aiScore r) < 56)%Z) by (apply lt_IZR; lra).
      lia.
    + split; assumption.
Qed.

(** ** What the draws can change *)

(** The features of a text, its flags and three of the four sub-scores do
    not depend on the draws. *)
Lemma features64_same (rnd pow2 : R -> R) (text : jsstring)
  (g1 g2 : RandomSource) (r1 r2 : Run) :
  text_features64 rnd pow2 text r1 -> scoring64 rnd g1 r1 ->
  text_features64 rnd pow2 text r2 -> scoring64 rnd g2 r2 ->
  variance r1 = variance r2
  /\ stdDev r1 = stdDev r2
  /\ ttr r1 = ttr r2
  /\ markerCount r1 = markerCount r2
  /\ markerDensity r1 = markerDensity r2
  /\ base_score64 rnd r1 = base_score64 rnd r2
  /\ flags (result r1) = flags (result r2)
  /\ burstinessScore (linguisticAnalysis (result r1))
     = burstinessScore (linguisticAnalysis (result r2))
  /\ vocabularyRichness (linguisticAnalysis (result r1))
     = vocabularyRichness (linguisticAnalysis (result r2))
  /\ sentenceVariety (linguisticAnalysis (result r1))
     = sentenceVariety (linguisticAnalysis (result r2)).
Proof.
  intros F1 S1 F2 S2.
  unfold text_features64 in F1, F2. cbv zeta in F1, F2.
  destruct F1 as (Hs1 & Hw1 & Hl1 & Ha1 & Hv1 & Hd1 & Hu1 & Ht1 & Hc1 & Hm1).
  destruct F2 as (Hs2 & Hw2 & Hl2 & Ha2 & Hv2 & Hd2 & Hu2 & Ht2 & Hc2 & Hm2).
  unfold scoring64 in S1, S2. cbv zeta in S1, S2.
  destruct S1 as (_ & _ & _ & _ & _ & _ & _ & _ & _ & _ & Hb1 & Hr1 & He1
                  & Hf1 & _).
  destruct S2 as (_ & _ & _ & _ & _ & _ & _ & _ & _ & _ & Hb2 & Hr2 & He2
                  & Hf2 & _).
  assert (Ew : words r1 = words r2) by congruence.
  assert (El : sentenceLengths r1 = sentenceLengths r2) by congruence.
  assert (Ea : avgLen r1 = avgLen r2) by (rewrite Ha1, Ha2, El; reflexivity).
  assert (Ev : variance r1 = variance r2)
    by (rewrite Hv1, Hv2, El, Ea; reflexivity).
  assert (Ed : stdDev r1 = stdDev r2) by congruence.
  assert (Eu : uniqueWords r1 = uniqueWords r2) by congruence.
  assert (Et : ttr r1 = ttr r2) by (rewrite Ht1, Ht2, Ew, Eu; reflexivity).
  assert (Ec : markerCount r1 = markerCount r2) by congruence.
  assert (Em : markerDensity r1 = markerDensity r2)
    by (rewrite Hm1, Hm2, Ew, Ec; reflexivity).
  assert (Eb : base_score64 rnd r1 = base_score64 rnd r2)
    by (unfold base_score64; rewrite Ed, Et, Em; reflexivity).
  repeat split; congruence.
Qed.

Lemma verdict64_cases (rnd : R -> R) (base j : R) :
  rounding rnd -> -5 <= j <= 5 ->
  let score := Math_max 5 (Math_min 98 (add64 rnd base j)) in
  (60 + 1 / 2 <= base -> Rgtb score 55 = true)
  /\ (base <= 50 -> Rgtb score 55 = false).
Proof.
  intros Hr Hj. cbv zeta. unfold add64. split; intros Hb.
  - assert (H : 111 / 2 <= rnd (base + j)).
    { change 111 with (IZR 111).
      rewrite <- (rounding_half rnd 111 Hr) by (apply small_double; lia).
      apply rounding_mono; [exact Hr | lra]. }
    apply Rgtb_true.
    unfold Math_max, Math_min, Rmax, Rmin.
    destruct (Rle_dec 98 (rnd (base + j))); destruct (Rle_dec 5 _); lra.
  - assert (H : rnd (base + j) <= 55).
    { change 55 with (IZR 55).
      rewrite <- (rounding_int rnd 55 Hr) by (apply small_double; lia).
      apply rounding_mono; [exact Hr | simpl; lra]. }
    unfold Rgtb. apply Rltb_false.
    unfold Math_max, Math_min, Rmax, Rmin.
    destruct (Rle_dec 98 (rnd (base + j))); destruct (Rle_dec 5 _); lra.
Qed.

(** The draw cannot turn a verdict that the text decides.  In double
    precision, with [base] the score the code has before it adds the
    jitter, two calls on one text have the same features, the same [base],
    the same flags and the same sub-scores other than [perplexityScore];
    both verdicts are true when [base >= 60.5] and both are false when
    [base <= 50]. *)
Theorem verdict_decided_by_text (rnd pow2 : R -> R) (text : jsstring)
  (g1 g2 : RandomSource) :
  rounding rnd -> squaring pow2 -> unit_draws g1 -> unit_draws g2 ->
  exists r1 r2,
    analyze64 rnd pow2 text g1 = Some (r1, advance (advance g1))
    /\ analyze64 rnd pow2 text g2 = Some (r2, advance (advance g2))
    /\ text_features64 rnd pow2 text r1
    /\ text_features64 rnd pow2 text r2
    /\ aiScore r1
       = Math_max 5 (Math_min 98 (add64 rnd (base_score64 rnd r1) (jitter r1)))
    /\ aiScore r2
       = Math_max 5 (Math_min 98 (add64 rnd (base_score64 rnd r2) (jitter r2)))
    /\ base_score64 rnd r1 = base_score64 rnd r2
    /\ flags (result r1) = flags (result r2)
    /\ burstinessScore (linguisticAnalysis (result r1))
       = burstinessScore (linguisticAnalysis (result r2))
    /\ vocabularyRichness (linguisticAnalysis (result r1))
       = vocabularyRichness (linguisticAnalysis (result r2))
    /\ sentenceVariety (linguisticAnalysis (result r1))
       = sentenceVariety (linguisticAnalysis (result r2))
    /\ (60 + 1 / 2 <= base_score64 rnd r1 ->
        isAiGenerated (result r1) = true
        /\ isAiGenerated (result r2) = true)
    /\ (base_score64 rnd r1 <= 50 ->
        isAiGenerated (result r1) = false
        /\ isAiGenerated (result r2) = false).
Proof.
  intros Hr Hp Hg1 Hg2.
  destruct (analyze64_run rnd pow2 text g1 Hr Hp) as (r1 & Hr1 & F1 & S1).
  destruct (analyze64_run rnd pow2 text g2 Hr Hp) as (r2 & Hr2 & F2 & S2).
  exists r1, r2. split; [exact Hr1|]. split; [exact Hr2|].
  split; [exact F1|]. split; [exact F2|].
  destruct (features64_same rnd pow2 text g1 g2 r1 r2 F1 S1 F2 S2)
    as (_ & _ & _ & _ & _ & Eb & Efl & Ebu & Evr & Esv).
  unfold scoring64 in S1, S2. cbv zeta in S1, S2.
  destruct S1 as (_ & Hj1 & Hai1 & _ & Hv1 & _).
  destruct S2 as (_ & Hj2 & Hai2 & _ & Hv2 & _).
  split; [exact Hai1|]. split; [exact Hai2|].
  split; [exact Eb|]. split; [exact Efl|]. split; [exact Ebu|].
  split; [exact Evr|]. split; [exact Esv|].
  assert (J1 : -5 <= jitter r1 <= 5)
    by (rewrite Hj1; apply jitter64_range; [exact Hr | apply Hg1]).
  assert (J2 : -5 <= jitter r2 <= 5)
    by (rewrite Hj2; apply jitter64_range; [exact Hr | apply Hg2]).
  destruct (verdict64_cases rnd (base_score64 rnd r1) (jitter r1) Hr J1)
    as [T1 N1].
  destruct (verdict64_cases rnd (base_score64 rnd r2) (jitter r2) Hr J2)
    as [T2 N2].
  rewrite Hv1, Hv2, Hai1, Hai2. rewrite <- Eb in T2, N2 |- *.
  split; intros Hb; split; auto.
Qed.

Lemma verdict_decided_by_text_witness :
  rounding exact /\ squaring square
  /\ unit_draws (source 0 0) /\ unit_draws (source 0.5 0.5)
  /\ exists r1 r2,
       analyze64 exact square leveraged18 (source 0 0)
         = Some (r1, advance (advance (source 0 0)))
       /\ analyze64 exact square leveraged18 (source 0.5 0.5)
          = Some (r2, advance (advance (source 0.5 0.5)))
       /\ text_features64 exact square leveraged18 r1
       /\ text_features64 exact square leveraged18 r2
       /\ aiScore r1
          = Math_max 5
              (Math_min 98 (add64 exact (base_score64 exact r1) (jitter r1)))
       /\ aiScore r2
          = Math_max 5
              (Math_min 98 (add64 exact (base_score64 exact r2) (jitter r2)))
       /\ base_score64 exact r1 = base_score64 exact r2
       /\ flags (result r1) = flags (result r2)
       /\ burstinessScore (linguisticAnalysis (result r1))
          = burstinessScore (linguisticAnalysis (result r2))
       /\ vocabularyRichness (linguisticAnalysis (result r1))
          = vocabularyRichness (linguisticAnalysis (result r2))
       /\ sentenceVariety (linguisticAnalysis (result r1))
          = sentenceVariety (linguisticAnalysis (result r2))
       /\ (60 + 1 / 2 <= base_score64 exact r1 ->
           isAiGenerated (result r1) = true
           /\ isAiGenerated (result r2) = true)
       /\ (base_score64 exact r1 <= 50 ->
           isAiGenerated (result r1) = false
           /\ isAiGenerated (result r2) = false).
Proof.
  assert (H1 : unit_draws (source 0 0)) by (apply source_unit_draws; lra).
  assert (H2 : unit_draws (source 0.5 0.5)) by (apply source_unit_draws; lra).
  split; [exact exact_rounding|]. split; [exact square_squaring|].
  split; [exact H1|]. split; [exact H2|].
  apply (verdict_decided_by_text exact square leveraged18
           (source 0 0) (source 0.5 0.5)).
  - exact exact_rounding.
  - exact square_squaring.
  - exact H1.
  - exact H2.
Defined.

(** ** Text outside the sentences *)

Lemma sentence_stats64_same (rnd pow2 : R -> R) (t1 t2 : jsstring)
  (g1 g2 : RandomSource) (r1 r2 : Run) :
  text_features64 rnd pow2 t1 r1 -> scoring64 rnd g1 r1 ->
  text_features64 rnd pow2 t2 r2 -> scoring64 rnd g2 r2 ->
  sentences_of t1 = sentences_of t2 ->
  sentences r1 = sentences r2
  /\ sentenceLengths r1 = sentenceLengths r2
  /\ avgLen r1 = avgLen r2
  /\ variance r1 = variance r2
  /\ stdDev r1 = stdDev r2
  /\ burstinessScore (linguisticAnalysis (result r1))
     = burstinessScore (linguisticAnalysis (result r2))
  /\ sentenceVariety (linguisticAnalysis (result r1))
     = sentenceVariety (linguisticAnalysis (result r2)).
Proof.
  intros F1 S1 F2 S2 E.
  unfold text_features64 in F1, F2. cbv zeta in F1, F2.
  destruct F1 as (Hs1 & _ & Hl1 & Ha1 & Hv1 & Hd1 & _).
  destruct F2 as (Hs2 & _ & Hl2 & Ha2 & Hv2 & Hd2 & _).
  unfold scoring64 in S1, S2. cbv zeta in S1, S2.
  destruct S1 as (_ & _ & _ & _ & _ & _ & _ & _ & _ & _ & Hb1 & _ & He1 & _).
  destruct S2 as (_ & _ & _ & _ & _ & _ & _ & _ & _ & _ & Hb2 & _ & He2 & _).
  assert (Es : sentences r1 = sentences r2) by congruence.
  assert (El : sentenceLengths r1 = sentenceLengths r2) by congruence.
  assert (Ea : avgLen r1 = avgLen r2) by (rewrite Ha1, Ha2, El; reflexivity).
  assert (Ev : variance r1 = variance r2)
    by (rewrite Hv1, Hv2, El, Ea; reflexivity).
  assert (Ed : stdDev r1 = stdDev r2) by congruence.
  repeat split; congruence.
Qed.

Lemma sentences_of_padded (pre text tail : jsstring) :
  Forall (fun c => is_terminator c = true) pre ->
  Forall (fun c => is_terminator c = false) tail ->
  String_match re_sentence text <> None ->
  sentences_of (pre ++ text ++ tail) = sentences_of text.
Proof.
  intros Hpre Htail Hsome.
  destruct (segmentation_exists text) as (p & post & Ht & Hp & Hl & Hpost).
  set (l := match_loop re_sentence None text 0) in *.
  assert (Hseg : segmentation (pre ++ text ++ tail) l).
  { exists (pre ++ p), (post ++ tail). repeat split.
    - rewrite Ht at 1. rewrite <- !app_assoc. reflexivity.
    - apply Forall_app. split; assumption.
    - exact Hl.
    - apply Forall_app. split; assumption. }
  apply segmentation_unique in Hseg.
  rewrite !sentences_of_cases. rewrite <- Hseg. fold l.
  unfold String_match in Hsome. fold l in Hsome.
  destruct l; [contradiction | reflexivity].
Qed.

(** Terminators before the first sentence and text behind the last
    terminator are in no sentence: when the pattern finds a sentence in
    [text], putting terminators before it and characters without a
    terminator behind it changes neither the sentences nor what is computed
    from them in double precision (lengths, mean, variance, standard
    deviation, [burstinessScore], [sentenceVariety]), whatever the draws of
    the two calls. *)
Theorem text_outside_sentences (rnd pow2 : R -> R) (pre text tail : jsstring)
  (g1 g2 : RandomSource) :
  rounding rnd -> squaring pow2 ->
  Forall (fun c => is_terminator c = true) pre ->
  Forall (fun c => is_terminator c = false) tail ->
  String_match re_sentence text <> None ->
  exists r1 r2,
    analyze64 rnd pow2 text g1 = Some (r1, advance (advance g1))
    /\ analyze64 rnd pow2 (pre ++ text ++ tail) g2
       = Some (r2, advance (advance g2))
    /\ text_features64 rnd pow2 text r1
    /\ text_features64 rnd pow2 (pre ++ text ++ tail) r2
    /\ sentences r2 = sentences r1
    /\ sentenceLengths r2 = sentenceLengths r1
    /\ avgLen r2 = avgLen r1
    /\ variance r2 = variance r1
    /\ stdDev r2 = stdDev r1
    /\ burstinessScore (linguisticAnalysis (result r2))
       = burstinessScore (linguisticAnalysis (result r1))
    /\ sentenceVariety (linguisticAnalysis (result r2))
       = sentenceVariety (linguisticAnalysis (result r1)).
Proof.
  intros Hr Hp Hpre Htail Hsome.
  destruct (analyze64_run rnd pow2 text g1 Hr Hp) as (r1 & Hr1 & F1 & S1).
  destruct (analyze64_run rnd pow2 (pre ++ text ++ tail) g2 Hr Hp)
    as (r2 & Hr2 & F2 & S2).
  exists r1, r2. split; [exact Hr1|]. split; [exact Hr2|].
  split; [exact F1|]. split; [exact F2|].
  pose proof (sentences_of_padded pre text tail Hpre Htail Hsome) as E.
  exact (sentence_stats64_same rnd pow2 _ _ g2 g1 r2 r1 F2 S2 F1 S1 E).
Qed.

Lemma text_outside_sentences_witness :
  rounding exact /\ squaring square
  /\ Forall (fun c => is_terminator c = true) text_dots
  /\ Forall (fun c => is_terminator c = false) text_tail
  /\ String_match re_sentence text_two <> None
  /\ exists r1 r2,
       analyze64 exact square text_two (source 0 0)
         = Some (r1, advance (advance (source 0 0)))
       /\ analyze64 exact square (text_dots ++ text_two ++ text_tail)
            (source 0 0)
          = Some (r2, advance (advance (source 0 0)))
       /\ text_features64 exact square text_two r1
       /\ text_features64 exact square
            (text_dots ++ text_two ++ text_tail) r2
       /\ sentences r2 = sentences r1
       /\ sentenceLengths r2 = sentenceLengths r1
       /\ avgLen r2 = avgLen r1
       /\ variance r2 = variance r1
       /\ stdDev r2 = stdDev r1
       /\ burstinessScore (linguisticAnalysis (result r2))
          = burstinessScore (linguisticAnalysis (result r1))
       /\ sentenceVariety (linguisticAnalysis (result r2))
          = sentenceVariety (linguisticAnalysis (result r1)).
Proof.
  assert (H1 : Forall (fun c => is_terminator c = true) text_dots)
    by (unfold text_dots; simpl; repeat constructor).
  assert (H2 : Forall (fun c => is_terminator c = false) text_tail)
    by (unfold text_tail; simpl; repeat constructor).
  assert (H3 : String_match re_sentence text_two <> None)
    by (vm_compute; discriminate).
  split; [exact exact_rounding|]. split; [exact square_squaring|].
  split; [exact H1|]. split; [exact H2|]. split; [exact H3|].
  apply (text_outside_sentences exact square text_dots text_two text_tail
           (source 0 0) (source 0 0));
    [exact exact_rounding | exact square_squaring | assumption ..].
Defined.

Example ex_padded_sentences :
  sentences_of text_two = [str "A b."; str " C!"]
  /\ sentences_of (text_dots ++ text_two ++ text_tail)
     = [str "A b."; str " C!"].
Proof. vm_compute. auto. Qed.

(* ================================================================== *)
(** * The page and the upload form *)

(** ** The page *)

Lemma message_or_default_not_empty (message : option string) :
  App.message_or_default message <> ""%string.
Proof. destruct message as [[|c m]|]; discriminate. Qed.

Lemma page_invariant_step (st : App.Model) (e : App.Event) :
  page_invariant st -> page_invariant (App.step st e).
Proof.
  intros [Hres Herr]. destruct e; simpl; split; simpl; intros H;
    try discriminate; auto.
  apply message_or_default_not_empty.
Qed.

Lemma page_invariant_run (events : list App.Event) (st : App.Model) :
  page_invariant st -> page_invariant (fold_left App.step events st).
Proof.
  revert st. induction events as [|e events IH]; intros st H; simpl.
  - exact H.
  - apply IH, page_invariant_step, H.
Qed.

(** After any sequence of events the page is in the state RESULTS only
    with a record to show, and in the state ERROR only with a message that
    is not empty; so it renders exactly one panel. *)
Theorem page_shows_one_panel (events : list App.Event) :
  let st := App.run events in
  (App.appState st = App.RESULTS -> App.result st <> None)
  /\ (App.appState st = App.ERROR -> App.errorMsg st <> ""%string)
  /\ length (App.panels st) = 1%nat
  /\ (App.viewMode st = App.demo -> App.appState st = App.RESULTS ->
      App.panels st = [App.ResultsPanel]).
Proof.
  cbv zeta.
  assert (Hinv : page_invariant (App.run events)).
  { apply page_invariant_run. split; discriminate. }
  destruct Hinv as [Hres Herr].
  split; [exact Hres|]. split; [exact Herr|].
  unfold App.panels.
  destruct (App.viewMode (App.run events)); [|split; [reflexivity|discriminate]].
  destruct (App.appState (App.run events)) eqn:Es;
    try (split; [reflexivity | discriminate]).
  destruct (App.result (App.run events)) eqn:Er.
  - split; reflexivity.
  - exfalso. apply Hres; reflexivity.
Qed.

(** The confidence printed on the page, the larger of the two
    percentages, lies between 50 and 98 for the record of every text. *)
Theorem confidence_range (text : jsstring) (g : RandomSource) :
  unit_draws g ->
  exists res,
    analyzeResume text g = Some (res, advance (advance g))
    /\ (50 <= App.confidence res <= 98)%Z.
Proof.
  intros Hg.
  destruct (analyze_run text g) as (r & Hr & Hd).
  exists (result r). split; [apply analyzeResume_run; exact Hr|].
  unfold describes in Hd. cbv zeta in Hd.
  destruct Hd as (_ & _ & _ & _ & _ & _ & _ & _ & _ & _ & _ & _ & Hai
                  & Hh & _ & Hap & Hhp & _).
  assert (Hrange : 5 <= aiScore r <= 98)
    by (rewrite Hai; apply clamp_bounds; lra).
  unfold App.confidence. rewrite Hap, Hhp, Hh.
  destruct (round_complement (aiScore r)) as [Hsum _].
  assert (H1 : (5 <= Math_round (aiScore r) <= 98)%Z)
    by (apply Math_round_between; lra).
  assert (H2 : (2 <= Math_round (100 - aiScore r) <= 95)%Z)
    by (apply Math_round_between; lra).
  lia.
Qed.

Lemma confidence_range_witness :
  unit_draws (source 0.45 0)
  /\ exists res,
       analyzeResume text_ab (source 0.45 0)
         = Some (res, advance (advance (source 0.45 0)))
       /\ (50 <= App.confidence res <= 98)%Z.
Proof.
  assert (Hg : unit_draws (source 0.45 0)) by (apply source_unit_draws; lra).
  split.
  - exact Hg.
  - apply (confidence_range text_ab (source 0.45 0)). exact Hg.
Defined.

(** ** The upload form *)

Lemma jsstring_eqb_refl (a : jsstring) : jsstring_eqb a a = true.
Proof. apply jsstring_eqb_eq. reflexivity. Qed.

Lemma endsWith_app (a b : jsstring) : FileUpload.endsWith (a ++ b) b = true.
Proof.
  unfold FileUpload.endsWith. rewrite length_app.
  replace (length a + length b - length b)%nat with (length a) by lia.
  rewrite skipn_app, skipn_all, Nat.sub_diag. simpl.
  rewrite jsstring_eqb_refl, andb_true_r. apply Nat.leb_le. lia.
Qed.

Lemma endsWith_app_short (a b search : jsstring) :
  (length search <= length b)%nat ->
  FileUpload.endsWith (a ++ b) search = FileUpload.endsWith b search.
Proof.
  intros Hlen. unfold FileUpload.endsWith. rewrite length_app.
  replace (length a + length b - length search)%nat
    with (length a + (length b - length search))%nat by lia.
  rewrite skipn_app.
  rewrite (skipn_all2 a) by lia.
  replace (length a + (length b - length search) - length a)%nat
    with (length b - length search)%nat by lia.
  simpl app. f_equal.
  destruct (length search <=? length b)%nat eqn:E1;
    destruct (length search <=? length a + length b)%nat eqn:E2;
    try reflexivity.
  - apply Nat.leb_le in E1. apply Nat.leb_gt in E2. lia.
  - apply Nat.leb_gt in E1. lia.
Qed.

Lemma toLowerCase_app (a b : jsstring) :
  toLowerCase (a ++ b) = toLowerCase a ++ toLowerCase b.
Proof. apply map_app. Qed.

(** The reader of a file is chosen by the end of its name, whatever the
    case of its letters: a name ending in ".pdf" goes to the PDF reader, a
    name ending in ".docx" or in ".doc" to the DOCX reader. *)
Theorem kind_by_extension (base ext : jsstring) :
  (toLowerCase ext = str ".pdf" ->
   FileUpload.kind_of_name (base ++ ext) = FileUpload.Pdf)
  /\ (toLowerCase ext = str ".docx" \/ toLowerCase ext = str ".doc" ->
      FileUpload.kind_of_name (base ++ ext) = FileUpload.Docx).
Proof.
  unfold FileUpload.kind_of_name. cbv zeta. rewrite toLowerCase_app.
  split.
  - intros ->. rewrite endsWith_app. reflexivity.
  - intros [-> | ->].
    + rewrite (endsWith_app_short _ (str ".docx") (str ".pdf"))
        by (simpl; lia).
      rewrite endsWith_app. reflexivity.
    + rewrite (endsWith_app_short _ (str ".doc") (str ".pdf"))
        by (simpl; lia).
      rewrite endsWith_app, orb_true_r. reflexivity.
Qed.

Example ex_kinds :
  FileUpload.kind_of_name name_cv_upper = FileUpload.Pdf
  /\ FileUpload.kind_of_name (str "letter.Doc") = FileUpload.Docx
  /\ FileUpload.kind_of_name (str "notes.pdf.txt") = FileUpload.PlainText
  /\ FileUpload.kind_of_name (str "pdf") = FileUpload.PlainText.
Proof. vm_compute. auto. Qed.

Lemma readFile_cases (st : FileUpload.State) (f : FileUpload.File) :
  (exists t,
     FileUpload.extract f = Some t /\ trim t <> []
     /\ FileUpload.readFile st f
        = FileUpload.mkState t (FileUpload.dragActive st) false None)
  \/ ((FileUpload.extract f = None
       \/ exists t, FileUpload.extract f = Some t
                    /\ Forall (fun c => is_space c = true) t)
      /\ FileUpload.readFile st f
         = FileUpload.mkState [] (FileUpload.dragActive st) false
             (Some FileUpload.extraction_failed)).
Proof.
  unfold FileUpload.readFile, FileUpload.readFile_end. cbv zeta.
  destruct (FileUpload.extract f) as [t|] eqn:Ex.
  - destruct (trim t) as [|c u] eqn:Et.
    + right. split; [|reflexivity]. right. exists t.
      split; [reflexivity | apply trim_empty_iff, Et].
    + left. exists t. split; [reflexivity|]. split; [|reflexivity].
      rewrite Et. discriminate.
  - right. split; [left|]; reflexivity.
Qed.

(** What [readFile] leaves: it is no longer extracting; either the text
    is the extracted one, not blank, with no error, or the text is empty
    with the error message, which is the case when the reader fails and
    when the extracted text is empty or blank.  The button is then enabled
    exactly when there is no error and no analysis is running. *)
Theorem readFile_outcome (st : FileUpload.State) (f : FileUpload.File)
  (isAnalyzing : bool) :
  let st' := FileUpload.readFile st f in
  FileUpload.isExtracting st' = false
  /\ FileUpload.dragActive st' = FileUpload.dragActive st
  /\ ((FileUpload.extractionError st' = None
       /\ FileUpload.extract f = Some (FileUpload.text st')
       /\ trim (FileUpload.text st') <> [])
      \/ (FileUpload.extractionError st' = Some FileUpload.extraction_failed
          /\ FileUpload.text st' = []
          /\ (FileUpload.extract f = None
              \/ exists t, FileUpload.extract f = Some t
                           /\ Forall (fun c => is_space c = true) t)))
  /\ (FileUpload.can_analyze st' isAnalyzing = true
      <-> FileUpload.extractionError st' = None /\ isAnalyzing = false).
Proof.
  cbv zeta.
  assert (Hfail : forall st', st' = FileUpload.mkState [] (FileUpload.dragActive st)
                                  false (Some FileUpload.extraction_failed) ->
            FileUpload.can_analyze st' isAnalyzing = true
            <-> FileUpload.extractionError st' = None /\ isAnalyzing = false).
  { intros st' ->. unfold FileUpload.can_analyze. cbn.
    split; [discriminate | intros [H _]; discriminate]. }
  destruct (FileUpload.extract f) as [t|] eqn:Ex.
  - destruct (trim t) as [|c u] eqn:Et.
    + assert (Hst : FileUpload.readFile st f
                    = FileUpload.mkState [] (FileUpload.dragActive st) false
                        (Some FileUpload.extraction_failed)).
      { unfold FileUpload.readFile, FileUpload.readFile_end. cbv zeta.
        rewrite Ex, Et. reflexivity. }
      rewrite Hst.
      split; [reflexivity|]. split; [reflexivity|]. split.
      * right. split; [reflexivity|]. split; [reflexivity|].
        right. exists t. split; [reflexivity | apply trim_empty_iff, Et].
      * apply Hfail. reflexivity.
    + assert (Hst : FileUpload.readFile st f
                    = FileUpload.mkState t (FileUpload.dragActive st) false
                        None).
      { unfold FileUpload.readFile, FileUpload.readFile_end. cbv zeta.
        rewrite Ex, Et. reflexivity. }
      rewrite Hst.
      split; [reflexivity|]. split; [reflexivity|]. split.
      * left. split; [reflexivity|]. split; [reflexivity|].
        cbn [FileUpload.text]. rewrite Et. discriminate.
      * unfold FileUpload.can_analyze.
        cbn [FileUpload.text FileUpload.isExtracting FileUpload.extractionError].
        rewrite Et, orb_false_r. cbn [orb negb].
        destruct isAnalyzing; cbn; split; intuition congruence.
  - assert (Hst : FileUpload.readFile st f
                  = FileUpload.mkState [] (FileUpload.dragActive st) false
                      (Some FileUpload.extraction_failed)).
    { unfold FileUpload.readFile, FileUpload.readFile_end. cbv zeta.
      rewrite Ex. reflexivity. }
    rewrite Hst.
    split; [reflexivity|]. split; [reflexivity|]. split.
    + right. split; [reflexivity|]. split; [reflexivity|]. left. reflexivity.
    + apply Hfail. reflexivity.
Qed.

Lemma join_blank (items : list jsstring) :
  Forall (fun c => is_space c = true) (FileUpload.join (str " ") items)
  <-> Forall (Forall (fun c => is_space c = true)) items.
Proof.
  induction items as [|x items IH].
  - simpl. split; constructor.
  - destruct items as [|y items].
    + simpl. split.
      * intros H. constructor; [exact H | constructor].
      * intros H. inversion H. assumption.
    + change (FileUpload.join (str " ") (x :: y :: items))
        with (x ++ str " " ++ FileUpload.join (str " ") (y :: items)).
      rewrite !Forall_app, IH. split.
      * intros (Hx & _ & Hrest). constructor; assumption.
      * intros H. inversion H; subst. split; [assumption|].
        split; [|assumption]. simpl. repeat constructor.
Qed.

Lemma extractTextFromPdf_blank (pages : list (list jsstring)) :
  Forall (fun c => is_space c = true) (FileUpload.extractTextFromPdf pages)
  <-> Forall (Forall (Forall (fun c => is_space c = true))) pages.
Proof.
  unfold FileUpload.extractTextFromPdf.
  assert (Hgen : forall acc,
    Forall (fun c => is_space c = true)
      (fold_left
         (fun fullText items =>
            fullText ++ (FileUpload.join (str " ") items ++ str (String "010" "")))
         pages acc)
    <-> Forall (fun c => is_space c = true) acc
        /\ Forall (Forall (Forall (fun c => is_space c = true))) pages).
  { induction pages as [|items pages IH]; intros acc.
    - simpl. split; [intros H; split; [exact H | constructor] | tauto].
    - cbn [fold_left]. rewrite IH, !Forall_app, join_blank. split.
      + intros ((Hacc & Hitems & _) & Hpages).
        split; [exact Hacc | constructor; assumption].
      + intros (Hacc & Hall). inversion Hall; subst.
        split; [|assumption]. split; [exact Hacc|].
        split; [assumption|]. simpl. repeat constructor. }
  rewrite Hgen. split; [tauto | intros H; split; [constructor | exact H]].
Qed.

Lemma extractTextFromPdf_concat (pages : list (list jsstring)) :
  FileUpload.extractTextFromPdf pages
  = concat (map (fun items =>
                   FileUpload.join (str " ") items ++ str (String "010" ""))
              pages).
Proof.
  unfold FileUpload.extractTextFromPdf.
  assert (Hgen : forall acc,
    fold_left
      (fun fullText items =>
         fullText ++ (FileUpload.join (str " ") items ++ str (String "010" "")))
      pages acc
    = acc ++ concat (map (fun items =>
                FileUpload.join (str " ") items ++ str (String "010" ""))
                pages)).
  { induction pages as [|items ps IH]; intros acc.
    - simpl. rewrite app_nil_r. reflexivity.
    - cbn [fold_left map concat]. rewrite IH, <- app_assoc. reflexivity. }
  apply Hgen.
Qed.

(** A file read as a PDF is accepted exactly when one of the text items
    of its pages holds a character that is not white space; a PDF without
    such an item (no page, pages without text, blank items) gives the error
    message and an empty text.  When accepted, the text is the items of each
    page joined by spaces, each page followed by a line feed. *)
Theorem pdf_needs_visible_text (st : FileUpload.State) (f : FileUpload.File)
  (pages : list (list jsstring)) :
  FileUpload.kind_of_name (FileUpload.name f) = FileUpload.Pdf ->
  FileUpload.pdf_pages f = Some pages ->
  let st' := FileUpload.readFile st f in
  (FileUpload.extractionError st' = None
   <-> ~ Forall (Forall (Forall (fun c => is_space c = true))) pages)
  /\ (FileUpload.extractionError st' = None ->
      FileUpload.text st'
      = concat (map (fun items =>
                       FileUpload.join (str " ") items ++ str (String "010" ""))
                  pages))
  /\ (FileUpload.extractionError st' <> None ->
      FileUpload.extractionError st' = Some FileUpload.extraction_failed
      /\ FileUpload.text st' = []).
Proof.
  intros Hkind Hpages. cbv zeta.
  assert (Hex : FileUpload.extract f
                = Some (FileUpload.extractTextFromPdf pages)).
  { unfold FileUpload.extract. rewrite Hkind, Hpages. reflexivity. }
  assert (Hconcat : FileUpload.extractTextFromPdf pages
                    = concat (map (fun items =>
                        FileUpload.join (str " ") items ++ str (String "010" ""))
                        pages)).
  { apply extractTextFromPdf_concat. }
  destruct (readFile_cases st f) as [(t & Ht & Hne & Hst) | (Hbad & Hst)].
  - rewrite Hex in Ht. inversion Ht; subst t. rewrite Hst.
    cbn [FileUpload.extractionError FileUpload.text].
    split; [|split].
    + split; [|reflexivity]. intros _ Hall.
      apply extractTextFromPdf_blank, trim_empty_iff in Hall.
      contradiction.
    + intros _. exact Hconcat.
    + intros H. contradiction.
  - rewrite Hst. cbn [FileUpload.extractionError FileUpload.text].
    split; [|split].
    + split; [discriminate|]. intros Hnot. exfalso. apply Hnot.
      destruct Hbad as [Hnone | (t & Ht & Hblank)].
      * rewrite Hex in Hnone. discriminate.
      * rewrite Hex in Ht. inversion Ht; subst t.
        apply extractTextFromPdf_blank. exact Hblank.
    + discriminate.
    + intros _. split; reflexivity.
Qed.

Lemma pdf_needs_visible_text_witness :
  FileUpload.kind_of_name (FileUpload.name scanned_pdf) = FileUpload.Pdf
  /\ FileUpload.pdf_pages scanned_pdf = Some [[[]; str " "]; []]
  /\ let st' := FileUpload.readFile form_start scanned_pdf in
     (FileUpload.extractionError st' = None
      <-> ~ Forall (Forall (Forall (fun c => is_space c = true)))
              [[[]; str " "]; []])
     /\ (FileUpload.extractionError st' = None ->
         FileUpload.text st'
         = concat (map (fun items =>
                          FileUpload.join (str " ") items
                          ++ str (String "010" ""))
                     [[[]; str " "]; []]))
     /\ (FileUpload.extractionError st' <> None ->
         FileUpload.extractionError st' = Some FileUpload.extraction_failed
         /\ FileUpload.text st' = []).
Proof.
  split; [vm_compute; reflexivity|]. split; [reflexivity|].
  apply (pdf_needs_visible_text form_start scanned_pdf [[[]; str " "]; []]).
  - vm_compute. reflexivity.
  - reflexivity.
Defined.

(* ================================================================== *)
(** * The number of words *)

Lemma match_loop_word_prev (p1 p2 : option ascii) (s : jsstring) :
  is_word_at p1 = is_word_at p2 ->
  match_loop re_word p1 s 0 = match_loop re_word p2 s 0.
Proof.
  intros H. destruct s as [|c s].
  - change (match_loop re_word p1 [] 0)
      with (match exec_at re_word p1 [] with
            | Some _ => [[]] | None => @nil jsstring end).
    change (match_loop re_word p2 [] 0)
      with (match exec_at re_word p2 [] with
            | Some _ => [[]] | None => @nil jsstring end).
    rewrite !exec_at_word, H. reflexivity.
  - rewrite !match_loop_cons, !exec_at_word, H. reflexivity.
Qed.

(** Passing a word once it is matched. *)
Lemma match_loop_word_skip (s : jsstring) (prev : option ascii) :
  is_word_at prev = true ->
  exists prev',
    is_word_at prev' = true
    /\ match_loop re_word prev s (length (take_while is_word s))
       = match_loop re_word prev' (drop_while is_word s) 0.
Proof.
  revert prev. induction s as [|c s IH]; intros prev Hprev.
  - exists prev. split; [exact Hprev | reflexivity].
  - simpl take_while. simpl drop_while. destruct (is_word c) eqn:Ec.
    + simpl length. rewrite match_loop_cons_skip. apply IH. exact Ec.
    + exists prev. split; [exact Hprev | reflexivity].
Qed.

Lemma count_runs_after_run (p : ascii -> bool) (b : bool) (s : jsstring) :
  count_runs p b (drop_while p s) = count_runs p true s.
Proof.
  rewrite count_runs_drop_while.
  pose proof (drop_while_head p s) as H.
  destruct (drop_while p s) as [|c r]; [reflexivity|].
  simpl. rewrite H. reflexivity.
Qed.

Lemma match_loop_word_count (n : nat) (s : jsstring) (prev : option ascii) :
  (length s <= n)%nat ->
  length (match_loop re_word prev s 0)
  = count_runs is_word (is_word_at prev) s.
Proof.
  revert s prev. induction n as [|n IH]; intros s prev Hlen.
  - destruct s; [|simpl in Hlen; lia].
    change (match_loop re_word prev [] 0)
      with (match exec_at re_word prev [] with
            | Some _ => [[]] | None => @nil jsstring end).
    rewrite exec_at_word. destruct (is_word_at prev); reflexivity.
  - destruct s as [|c s].
    { change (match_loop re_word prev [] 0)
        with (match exec_at re_word prev [] with
              | Some _ => [[]] | None => @nil jsstring end).
      rewrite exec_at_word. destruct (is_word_at prev); reflexivity. }
    simpl in Hlen.
    rewrite match_loop_cons, exec_at_word.
    simpl take_while. cbn [count_runs].
    destruct (is_word c) eqn:Ec.
    + destruct (is_word_at prev) eqn:Ep.
      * rewrite IH by lia. simpl. rewrite Ec. reflexivity.
      * simpl length. simpl pred.
        destruct (match_loop_word_skip s (Some c) Ec) as (prev' & Hp' & ->).
        rewrite IH.
        2:{ pose proof (drop_while_length is_word s). lia. }
        rewrite count_runs_after_run. reflexivity.
    + assert (Hnone : (if is_word_at prev then None
                       else @None nat) = None)
        by (destruct (is_word_at prev); reflexivity).
      rewrite Hnone. rewrite IH by lia. simpl. rewrite Ec. reflexivity.
Qed.

Lemma count_runs_none (p : ascii -> bool) (s : jsstring) :
  count_runs p false s = 0%nat -> Forall (fun c => p c = false) s.
Proof.
  induction s as [|c s IH]; intros H; [constructor|].
  simpl in H. destruct (p c) eqn:Ec; [discriminate|].
  constructor; [exact Ec | apply IH, H].
Qed.

(** The words are those of the lower-cased text; their number is the
    number of maximal runs of letters, digits and underscores of the
    lower-cased text, and there is no word exactly when the lower-cased
    text has no such character. *)
Theorem number_of_words (text : jsstring) (g : RandomSource) :
  exists r,
    analyze text g = Some (r, advance (advance g))
    /\ words r = words_of (toLowerCase text)
    /\ length (words r) = count_runs is_word false (toLowerCase text)
    /\ (words r = []
        <-> Forall (fun c => is_word c = false) (toLowerCase text)).
Proof.
  destruct (analyze_run text g) as (r & Hr & Hd).
  exists r. split; [exact Hr|].
  unfold describes in Hd. cbv zeta in Hd. destruct Hd as (_ & Hw & _).
  split; [exact Hw|].
  assert (Hlen : length (words r)
                 = count_runs is_word false (toLowerCase text)).
  { rewrite Hw. unfold words_of, String_match.
    assert (Hc : length (match_loop re_word None (toLowerCase text) 0)
                 = count_runs is_word false (toLowerCase text)).
    { rewrite (match_loop_word_count _ _ None (le_n _)). reflexivity. }
    destruct (match_loop re_word None (toLowerCase text) 0); exact Hc. }
  split; [exact Hlen|].
  split.
  - intros He. rewrite He in Hlen. simpl in Hlen. symmetry in Hlen.
    apply count_runs_none. exact Hlen.
  - intros Hall. rewrite Hw. unfold words_of, String_match.
    rewrite match_loop_word_none; [reflexivity | exact Hall].
Qed.
